(** * 102shows: the APA102 strip driver and the colour-cycle template

    A shallow embedding of [server/drivers/apa102.py] and
    [server/lightshows/templates/colorcycle.py], with the properties of the
    wire format, of the frame buffer and of the show life cycle that the
    design document states about them. *)

From Stdlib Require Import String Ascii ZArith List Bool Lia SpecFloat.
From Stdlib Require Import Permutation.
Import ListNotations.
Local Open Scope Z_scope.

(** ** Python values and primitives used by the two files *)

Module Py.

(** The exceptions that the modelled code can raise or let through. *)
Inductive exn : Type :=
| KeyboardInterrupt
| InvalidParameters (msg : string)
| InvalidParameters_unknown (param_name : string)
| InvalidParameters_value (param_name : string)
| IndexError
| ZeroDivisionError
| OverflowError
| ValueError
| TypeError
| OtherError (what : string).

(** The outcome of a call: a value, or a raised exception. *)
Inductive result (A : Type) : Type :=
| Ok (a : A)
| Raise (e : exn).
Arguments Ok {A} a.
Arguments Raise {A} e.

Definition bind {A B : Type} (r : result A) (k : A -> result B) : result B :=
  match r with
  | Ok a => k a
  | Raise e => Raise e
  end.

(** *** Floats: IEEE 754 binary64, as CPython's [float] *)

Definition prec : Z := 53.
Definition emax : Z := 1024.

(** An integer as an exact, not yet rounded, binary number. *)
Definition exact_of_int (z : Z) : spec_float :=
  match z with
  | Z0 => S754_zero false
  | Zpos m => S754_finite false m 0
  | Zneg m => S754_finite true m 0
  end.

Definition is_finite (f : spec_float) : bool :=
  match f with
  | S754_zero _ | S754_finite _ _ _ => true
  | _ => false
  end.

(** [float(z)]: the nearest double, ties to even; too large an integer
    raises [OverflowError]. *)
Definition float_of_int (z : Z) : result spec_float :=
  let f := binary_normalize prec emax z 0 false in
  if is_finite f then Ok f else Raise OverflowError.

(** [a / b] on two integers: the correctly rounded quotient. *)
Definition int_truediv (a b : Z) : result spec_float :=
  if b =? 0 then Raise ZeroDivisionError
  else
    match a with
    | Z0 => Ok (S754_zero (b <? 0))
    | _ =>
        let f := SFdiv prec emax (exact_of_int a) (exact_of_int b) in
        if is_finite f then Ok f else Raise OverflowError
    end.

(** [x * n] for a float [x] and an integer [n]. *)
Definition float_mul_int (x : spec_float) (n : Z) : result spec_float :=
  bind (float_of_int n) (fun fn => Ok (SFmul prec emax x fn)).

(** [round(x)] with one argument: the nearest integer, ties to the even
    one; NaN and the infinities raise. *)
Definition round (x : spec_float) : result Z :=
  match x with
  | S754_nan => Raise ValueError
  | S754_infinity _ => Raise OverflowError
  | S754_zero _ => Ok 0
  | S754_finite s m e =>
      let mag :=
        if 0 <=? e then Z.shiftl (Zpos m) e
        else
          let d := Z.shiftl 1 (- e) in
          let q := Zpos m / d in
          let r := Zpos m mod d in
          match 2 * r ?= d with
          | Lt => q
          | Gt => q + 1
          | Eq => if Z.even q then q else q + 1
          end in
      Ok (if s then - mag else mag)
  end.

(** [a % b] on integers: the result has the sign of the divisor. *)
Definition int_mod (a b : Z) : result Z :=
  if b =? 0 then Raise ZeroDivisionError else Ok (a mod b).

(** *** Lists *)

Definition len {A : Type} (l : list A) : Z := Z.of_nat (length l).

(** The position that an index denotes: negative indexes count from the
    end, anything outside the list is an [IndexError]. *)
Definition index_of {A : Type} (l : list A) (i : Z) : result nat :=
  if (0 <=? i) && (i <? len l) then Ok (Z.to_nat i)
  else if (- len l <=? i) && (i <? 0) then Ok (Z.to_nat (len l + i))
  else Raise IndexError.

Fixpoint update {A : Type} (l : list A) (n : nat) (v : A) : list A :=
  match l, n with
  | [], _ => []
  | _ :: t, O => v :: t
  | h :: t, S n' => h :: update t n' v
  end.

(** [l[i]] *)
Definition getitem (l : list Z) (i : Z) : result Z :=
  bind (index_of l i) (fun n => Ok (nth n l 0)).

(** [l[i] = v], as the list after the assignment *)
Definition setitem (l : list Z) (i : Z) (v : Z) : result (list Z) :=
  bind (index_of l i) (fun n => Ok (update l n v)).

(** The bound of a slice, clamped into [0 .. len l]. *)
Definition slice_bound {A : Type} (l : list A) (c : Z) : nat :=
  if c <? 0 then Z.to_nat (Z.max 0 (len l + c))
  else Z.to_nat (Z.min c (len l)).

(** [l[c:]] and [l[:c]] *)
Definition slice_from {A : Type} (l : list A) (c : Z) : list A :=
  skipn (slice_bound l c) l.
Definition slice_to {A : Type} (l : list A) (c : Z) : list A :=
  firstn (slice_bound l c) l.

(** [l * k]: [k] copies of [l], none when [k <= 0]. *)
Definition list_mul {A : Type} (l : list A) (k : Z) : list A :=
  concat (repeat l (Z.to_nat k)).

(** [range(n)] *)
Definition range (n : Z) : list Z := map Z.of_nat (seq 0 (Z.to_nat n)).

(** *** Methods: state passing, with exceptions that keep the state *)

Definition M (S A : Type) : Type := S -> result A * S.

Definition ret {S A : Type} (a : A) : M S A := fun s => (Ok a, s).
Definition raise {S A : Type} (e : exn) : M S A := fun s => (Raise e, s).
Definition mbind {S A B : Type} (c : M S A) (k : A -> M S B) : M S B :=
  fun s =>
    match c s with
    | (Ok a, s') => k a s'
    | (Raise e, s') => (Raise e, s')
    end.
Definition get {S : Type} : M S S := fun s => (Ok s, s).
Definition put {S : Type} (s : S) : M S unit := fun _ => (Ok tt, s).
Definition lift {S A : Type} (r : result A) : M S A := fun s => (r, s).

(** [for x in xs: body(x)]; a raise leaves the loop. *)
Fixpoint for_each {S X : Type} (xs : list X) (body : X -> M S unit) : M S unit :=
  match xs with
  | [] => ret tt
  | x :: xs' => mbind (body x) (fun _ => for_each xs' body)
  end.

(** [try: c except KeyboardInterrupt: h]; other exceptions pass. *)
Definition try_except_KeyboardInterrupt {S A : Type} (c h : M S A) : M S A :=
  fun s =>
    match c s with
    | (Raise KeyboardInterrupt, s') => h s'
    | other => other
    end.

End Py.

Declare Scope py_scope.
Delimit Scope py_scope with py.
Notation "x <- c ;; k" := (Py.mbind c (fun x => k))
  (at level 61, c at next level, right associativity) : py_scope.
Notation "c ;; k" := (Py.mbind c (fun _ => k))
  (at level 61, right associativity) : py_scope.

(** ** [server/drivers/apa102.py] *)

Module APA102.
Import Py.
Local Open Scope py_scope.

(** The driver object: the LED count, the frame buffer [leds], the
    cross-process mirror [synced_buffer] (an array of C ints of a fixed
    size) and, for the SPI device, the transfers made so far. *)
Record strip : Type := mkStrip {
  num_leds : Z;
  max_speed_hz : Z;
  leds : list Z;
  synced_buffer : list Z;
  spi_sent : list (list Z)
}.

Definition set_leds (l : list Z) (s : strip) : strip :=
  mkStrip (num_leds s) (max_speed_hz s) l (synced_buffer s) (spi_sent s).
Definition set_synced_buffer (l : list Z) (s : strip) : strip :=
  mkStrip (num_leds s) (max_speed_hz s) (leds s) l (spi_sent s).

(** [self.leds[i] = v] *)
Definition leds_setitem (i v : Z) : M strip unit :=
  s <- get ;; l <- lift (setitem (leds s) i v) ;; put (set_leds l s).
(** [self.leds[i]] *)
Definition leds_getitem (i : Z) : M strip Z :=
  s <- get ;; lift (getitem (leds s) i).

(** An element of the mirror holds a C [int]: an integer that is stored
    there keeps its low 32 bits, read as a signed number, and no overflow
    is reported. *)
Definition fits_c_int (v : Z) : bool := (- 2 ^ 31 <=? v) && (v <? 2 ^ 31).
Definition wrap_c_int (v : Z) : Z := (v + 2 ^ 31) mod 2 ^ 32 - 2 ^ 31.

(** [self.synced_buffer[i] = v] *)
Definition synced_setitem (i v : Z) : M strip unit :=
  s <- get ;;
  l <- lift (setitem (synced_buffer s) i (wrap_c_int v)) ;;
  put (set_synced_buffer l s).
(** [self.synced_buffer[i]] *)
Definition synced_getitem (i : Z) : M strip Z :=
  s <- get ;; lift (getitem (synced_buffer s) i).

(** [self.spi.xfer2(data)]: the bytes go out on the wire. *)
Definition spi_xfer2 (data : list Z) : M strip unit :=
  fun s => (Ok tt, mkStrip (num_leds s) (max_speed_hz s) (leds s) (synced_buffer s)
                           (spi_sent s ++ [data])).

Definition _set_pixel (led_num red green blue : Z) : M strip unit :=
  s <- get ;;
  if led_num <? 0 then ret tt
  else if led_num >=? num_leds s then ret tt
  else
    let start_index := 4 * led_num in
    leds_setitem (start_index + 3) red ;;
    leds_setitem (start_index + 2) green ;;
    leds_setitem (start_index + 1) blue.

Definition get_pixel (led_num : Z) : M strip (Z * Z * Z) :=
  let start_index := 4 * led_num in
  red <- leds_getitem (start_index + 3) ;;
  green <- leds_getitem (start_index + 2) ;;
  blue <- leds_getitem (start_index + 1) ;;
  ret (red, green, blue).

(** [led_prefix(brightness)]: the first byte of the 4-byte message to one
    LED. *)
Definition led_prefix (brightness : Z) : result Z :=
  bind (int_truediv brightness 100) (fun x =>
  bind (float_mul_int x 31) (fun y =>
  bind (round y) (fun brightness_byte =>
  let prefix_byte := Z.lor (Z.land brightness_byte 31) 224 in
  Ok prefix_byte))).

Definition _set_brightness (led_num brightness : Z) : M strip unit :=
  p <- lift (led_prefix brightness) ;;
  leds_setitem (4 * led_num) p.

Definition spi_start_frame : list Z := [0; 0; 0; 0].

Definition spi_end_frame (num_leds : Z) : list Z :=
  list_mul [0] ((num_leds + 15) / 16).

Definition show : M strip unit :=
  spi_xfer2 spi_start_frame ;;
  s <- get ;;
  spi_xfer2 (leds s) ;;
  spi_xfer2 (spi_end_frame (num_leds s)).

Definition sync_up : M strip unit :=
  s <- get ;;
  for_each (range (len (leds s))) (fun i =>
    v <- leds_getitem i ;; synced_setitem i v).

Definition sync_down : M strip unit :=
  s <- get ;;
  for_each (range (len (synced_buffer s))) (fun i =>
    v <- synced_getitem i ;; leds_setitem i v).

Definition rotate (positions : Z) : M strip unit :=
  s <- get ;;
  m <- lift (int_mod positions (num_leds s)) ;;
  let cutoff := 4 * m in
  put (set_leds (slice_from (leds s) cutoff ++ slice_to (leds s) cutoff) s).

(** Modelled from the spec: the base class [LEDStrip] of [drivers] is
    not among the sources.  Its [set_pixel] writes red, green and blue
    into the buffer at the channel offsets of the pixel and ignores an
    index outside the strip, which is [_set_pixel]; its [set_brightness]
    writes the prefix of the brightness at the prefix offset of the pixel,
    which is [_set_brightness]; its [set_global_brightness] sets the
    brightness of every pixel. *)
Definition set_pixel (led_num red green blue : Z) : M strip unit :=
  _set_pixel led_num red green blue.
Definition set_brightness (led_num brightness : Z) : M strip unit :=
  _set_brightness led_num brightness.
Definition set_global_brightness (brightness : Z) : M strip unit :=
  s <- get ;;
  for_each (range (num_leds s)) (fun led_num =>
    set_brightness led_num brightness).

(** [APA102(num_leds, max_clock_speed_hz, initial_brightness)] *)
Definition init (num_leds max_clock_speed_hz initial_brightness : Z) : result strip :=
  if num_leds >? 1024 then
    Raise (OtherError "The APA102 LED driver does not support strips of more than 1024 LEDs")
  else
    let s0 := mkStrip num_leds max_clock_speed_hz (list_mul [0; 0; 0; 0] num_leds) [] [] in
    match set_global_brightness initial_brightness s0 with
    | (Ok _, s1) => Ok (set_synced_buffer (map wrap_c_int (leds s1)) s1)
    | (Raise e, _) => Raise e
    end.

(** The frame buffer holds four bytes for each LED, and so does the
    mirror, whose size is fixed when it is made. *)
Definition wf (s : strip) : Prop :=
  len (leds s) = 4 * num_leds s /\ len (synced_buffer s) = 4 * num_leds s.

(** All the bytes sent over SPI so far, in order. *)
Definition transmitted (s : strip) : list Z := concat (spi_sent s).

(** A strip of three LEDs at full brightness, as [APA102(3, 4000000, 100)]
    makes it. *)
Definition three_leds : strip :=
  mkStrip 3 4000000
    [255; 0; 0; 0; 255; 0; 0; 0; 255; 0; 0; 0]
    [255; 0; 0; 0; 255; 0; 0; 0; 255; 0; 0; 0]
    [].

(** What can happen to a strip once it is made: a call of one of its
    methods, or another process writing an element of the mirror. *)
Inductive op : Type :=
| Set_pixel (led_num red green blue : Z)
| Set_brightness (led_num brightness : Z)
| Set_global_brightness (brightness : Z)
| Show
| Sync_up
| Sync_down
| Rotate (positions : Z)
| Mirror_write (i v : Z).

Definition exec (o : op) : M strip unit :=
  match o with
  | Set_pixel led_num red green blue => set_pixel led_num red green blue
  | Set_brightness led_num brightness => set_brightness led_num brightness
  | Set_global_brightness brightness => set_global_brightness brightness
  | Show => show
  | Sync_up => sync_up
  | Sync_down => sync_down
  | Rotate positions => rotate positions
  | Mirror_write i v => synced_setitem i v
  end.

(** The strip after a history of operations; one that raises leaves
    the strip as it was when it raised, and the history goes on. *)
Fixpoint after (history : list op) (s : strip) : strip :=
  match history with
  | [] => s
  | o :: rest => after rest (snd (exec o s))
  end.

(** A method keeps a property of the strip, whether it returns or
    raises. *)
Definition keeps {A : Type} (P : strip -> Prop) (c : M strip A) : Prop :=
  forall s, P s -> P (snd (c s)).

(** The shape of a strip: its LED count and the two lengths. *)
Definition shape (n a b : Z) (s : strip) : Prop :=
  num_leds s = n /\ len (leds s) = a /\ len (synced_buffer s) = b.

End APA102.

(** ** [server/lightshows/templates/colorcycle.py] *)

Module ColorCycle.
Import Py.
Local Open Scope string_scope.
Local Open Scope list_scope.
Local Open Scope Z_scope.
Local Open Scope py_scope.

(** The values that a parameter of a show can hold. *)
Inductive value : Type :=
| VNone
| VBool (b : bool)
| VInt (z : Z)
| VFloat (f : spec_float)
| VStr (s : string).

(** The truth value of [v], as [if v:] and [not v] take it. *)
Definition truthy (v : value) : bool :=
  match v with
  | VNone => false
  | VBool b => b
  | VInt z => negb (z =? 0)
  | VFloat (S754_zero _) => false
  | VFloat _ => true
  | VStr s => negb (String.eqb s "")
  end.

(** How a float compares with an integer: exactly, and not at all when
    the float is a NaN. *)
Definition float_compare_int (f : spec_float) (c : Z) : option comparison :=
  match f with
  | S754_nan => None
  | S754_infinity s => Some (if s then Lt else Gt)
  | S754_zero _ => Some (0 ?= c)
  | S754_finite s m e =>
      let sm := if s then Zneg m else Zpos m in
      Some (if 0 <=? e then Z.shiftl sm e ?= c else sm ?= Z.shiftl c (- e))
  end.

(** [v != c] for an integer [c] *)
Definition ne_int (v : value) (c : Z) : bool :=
  match v with
  | VInt z => negb (z =? c)
  | VBool b => negb (Z.b2z b =? c)
  | VFloat f => match float_compare_int f c with Some Eq => false | _ => true end
  | VNone | VStr _ => true
  end.

(** [c >= v] for an integer [c]; no order between an integer and [None]
    or a string. *)
Definition int_ge (c : Z) (v : value) : result bool :=
  match v with
  | VInt z => Ok (z <=? c)
  | VBool b => Ok (Z.b2z b <=? c)
  | VFloat f =>
      Ok match float_compare_int f c with Some (Lt | Eq) => true | _ => false end
  | VNone | VStr _ => Raise TypeError
  end.

(** [range(v)] *)
Definition range_of (v : value) : result (list Z) :=
  match v with
  | VInt z => Ok (range z)
  | VBool b => Ok (range (Z.b2z b))
  | _ => Raise TypeError
  end.

(** The parameters of a colour cycle. *)
Record params : Type := mkParams {
  pause_sec : value;
  num_steps_per_cycle : value;
  num_cycles : value;
  order : string
}.

Definition init_parameters : params := mkParams VNone VNone VNone "rgb".

(** The validators of [lightshows.utilities.verifyparameters], which is
    not among the sources: each takes the value and the name of the
    parameter, and returns or raises. *)
Record verifyparameters : Type := mkVerify {
  not_negative_numeric : value -> string -> result unit;
  positive_integer : value -> string -> result unit
}.

Section Configuration.
Variable verify : verifyparameters.

Definition set_parameter (self : params) (param_name : string) (v : value)
  : result params :=
  if String.eqb param_name "pause_sec" then
    bind (not_negative_numeric verify v param_name) (fun _ =>
    Ok (mkParams v (num_steps_per_cycle self) (num_cycles self) (order self)))
  else if String.eqb param_name "num_steps_per_cycle" then
    bind (positive_integer verify v param_name) (fun _ =>
    Ok (mkParams (pause_sec self) v (num_cycles self) (order self)))
  else if String.eqb param_name "num_cycles" then
    bind (positive_integer verify v param_name) (fun _ =>
    Ok (mkParams (pause_sec self) (num_steps_per_cycle self) v (order self)))
  else Raise (InvalidParameters_unknown param_name).
End Configuration.

(** The double quote, for the messages. *)
Definition dq : string := String "034"%char EmptyString.

Definition missing (param_name : string) : exn :=
  InvalidParameters (String.concat "" ["Missing parameter "; dq; param_name; dq; "!"]).

Definition check_runnable (self : params) : result unit :=
  if negb (truthy (pause_sec self)) then Raise (missing "pause_sec")
  else if negb (truthy (num_steps_per_cycle self)) then Raise (missing "num_steps_per_cycle")
  else if negb (truthy (num_cycles self)) then Raise (missing "num_cycles")
  else Ok tt.

(** Modelled from the spec: the validators of
    [lightshows.utilities.verifyparameters] are not among the sources.
    [pause_sec] takes a non-negative number, a count takes a positive
    integer ([set_parameter] passes both counts to the one validator
    [positive_integer]); a value of the wrong type or sign fails with an
    error that names the parameter. *)
Definition spec_not_negative_numeric (v : value) (param_name : string) : result unit :=
  match v with
  | VInt z => if 0 <=? z then Ok tt else Raise (InvalidParameters_value param_name)
  | VFloat f =>
      match float_compare_int f 0 with
      | Some (Eq | Gt) => Ok tt
      | _ => Raise (InvalidParameters_value param_name)
      end
  | _ => Raise (InvalidParameters_value param_name)
  end.
Definition spec_positive_integer (v : value) (param_name : string) : result unit :=
  match v with
  | VInt z => if 0 <? z then Ok tt else Raise (InvalidParameters_value param_name)
  | _ => Raise (InvalidParameters_value param_name)
  end.
Definition spec_verify : verifyparameters :=
  mkVerify spec_not_negative_numeric spec_positive_integer.

(** *** The life cycle *)

(** What [run] calls outside of itself: the hooks of the subclass, the
    strip and the clock. *)
Inductive call : Type :=
| Init
| Update (current_step current_cycle : Z)
| Shutdown
| Strip_show
| Strip_clear
| Strip_release
| Sleep (secs : value).

(** What a call does: it returns a value, or it raises; a
    [KeyboardInterrupt] that arrives during the call is raised by it, and
    one that arrives between two calls is raised by the next one, which
    [run] tells apart in nothing but the last entry of the trace. *)
Inductive outcome : Type :=
| Returns (v : value)
| Raises (e : exn).

(** The calls made so far, oldest first. *)
Definition trace : Type := list call.

(** The world around a show answers each call, given the calls before. *)
Definition world : Type := trace -> call -> outcome.

Section Run.
Variable env : world.
(** The parameters of the show; they stay as they are while it runs. *)
Variable self : params.

(** A call: it goes on the trace, and the world answers it. *)
Definition do (c : call) : M trace value :=
  fun tr =>
    match env tr c with
    | Returns v => (Ok v, tr ++ [c])
    | Raises e => (Raise e, tr ++ [c])
    end.

(** Modelled from the spec: the methods [clearStrip] and [cleanup] of
    the strip are not among the sources.  The first clears the entire
    frame buffer to off and transmits it, the second releases the
    transport. *)
Definition strip_clearStrip : M trace unit :=
  do Strip_clear ;; do Strip_show ;; ret tt.
Definition strip_cleanup : M trace unit :=
  do Strip_release ;; ret tt.

Definition cleanup : M trace unit :=
  do Shutdown ;;
  strip_clearStrip ;;
  strip_cleanup.

(** One pass of the [for] loop over the steps of a cycle. *)
Definition steps (currentCycle : Z) : M trace unit :=
  rng <- lift (range_of (num_steps_per_cycle self)) ;;
  for_each rng (fun currentStep =>
    needRepaint <- do (Update currentStep currentCycle) ;;
    (if truthy needRepaint then do Strip_show ;; ret tt else ret tt) ;;
    do (Sleep (pause_sec self)) ;;
    ret tt).

(** The [while True] loop, for at most [fuel] cycles: [true] when the
    loop was left by [break], [false] when it is still going. *)
Fixpoint while_true (fuel : nat) (currentCycle : Z) : M trace bool :=
  match fuel with
  | O => ret false
  | S fuel' =>
      steps currentCycle ;;
      let currentCycle := currentCycle + 1 in
      stop <- (if ne_int (num_cycles self) (-1)
               then lift (int_ge currentCycle (num_cycles self))
               else ret false) ;;
      if (stop : bool) then ret true else while_true fuel' currentCycle
  end.

(** [run()], followed through at most [fuel] cycles: [Ok true] when it
    has returned, [Ok false] when it is still in its loop, [Raise e]
    when [e] has left it. *)
Definition run (fuel : nat) : M trace bool :=
  try_except_KeyboardInterrupt
    (do Init ;;
     do Strip_show ;;
     finished <- while_true fuel 0 ;;
     if (finished : bool) then cleanup ;; ret true else ret false)
    (cleanup ;; ret true).

End Run.

(** The pairs of step and cycle that [update] was called with. *)
Fixpoint updates (tr : trace) : list (Z * Z) :=
  match tr with
  | [] => []
  | Update st cy :: tr' => (st, cy) :: updates tr'
  | _ :: tr' => updates tr'
  end.

(** The calls of one [cleanup], in order. *)
Definition cleanup_calls : trace := [Shutdown; Strip_clear; Strip_show; Strip_release].

(** How often [cleanup] was entered: it starts with the shutdown hook,
    which nothing else calls. *)
Definition is_shutdown (c : call) : bool :=
  match c with Shutdown => true | _ => false end.
Definition cleanups (tr : trace) : nat := List.length (filter is_shutdown tr).

(** The calls that [run] makes before it comes to [cleanup]. *)
Definition loop_call (c : call) : Prop :=
  match c with
  | Init | Update _ _ | Strip_show | Sleep _ => True
  | Shutdown | Strip_clear | Strip_release => False
  end.

(** Every call of [ext], made after the calls of [tr], has returned. *)
Fixpoint returned (env : world) (tr ext : trace) : Prop :=
  match ext with
  | [] => True
  | c :: ext' => (exists v, env tr c = Returns v) /\ returned env (tr ++ [c]) ext'
  end.

(** Some worlds.  In [quiet] every call returns, and [update] asks for no
    repaint.  In [cancelled_at k] the call number [k] (from 0) is hit by a
    [KeyboardInterrupt], unless the shutdown has begun by then.  In
    [update_fails] the hook [update] raises an error, in [show_fails] the
    transmission does. *)
Definition quiet : world := fun _ _ => Returns VNone.
Definition cancelled_at (k : nat) : world :=
  fun tr c =>
    if existsb is_shutdown (tr ++ [c]) then Returns VNone
    else if Nat.eqb (List.length tr) k then Raises KeyboardInterrupt
    else Returns (VBool true).
Definition update_fails : world :=
  fun _ c =>
    match c with
    | Update _ _ => Raises (OtherError "update failed")
    | _ => Returns VNone
    end.
Definition show_fails : world :=
  fun _ c =>
    match c with
    | Strip_show => Raises (OtherError "transport failed")
    | _ => Returns VNone
    end.

(** Five steps in each of three cycles, without a pause between steps. *)
Definition five_by_three : params := mkParams (VInt 0) (VInt 5) (VInt 3) "rgb".
(** One step a cycle, for ever. *)
Definition for_ever : params :=
  mkParams (VFloat (S754_finite false 4503599627370496 (-53))) (VInt 1) (VInt (-1)) "rgb".

(** The pairs that [update] is called with in cycle [cy] of [n] steps, and
    in [k] cycles from cycle [cy] on. *)
Definition cycle_updates (n cy : Z) : list (Z * Z) :=
  map (fun st => (st, cy)) (range n).
Fixpoint cycles_updates (n : Z) (k : nat) (cy : Z) : list (Z * Z) :=
  match k with
  | O => []
  | S k' => cycle_updates n cy ++ cycles_updates n k' (cy + 1)
  end.

(** What a part of [run] before [cleanup] does from any trace: it adds
    loop calls; when it returns they have all returned. *)
Definition loop_part {A : Type} (env : world) (c : M trace A) : Prop :=
  forall tr,
    exists ext,
      snd (c tr) = tr ++ ext
      /\ Forall loop_call ext
      /\ (forall a, fst (c tr) = Ok a -> returned env tr ext).

(** Only a [KeyboardInterrupt] leaves it. *)
Definition only_cancelled {A : Type} (c : M trace A) : Prop :=
  forall tr e, fst (c tr) = Raise e -> e = KeyboardInterrupt.

(** [run] up to its [cleanup]: the first frame and the loop. *)
Definition front (env : world) (self : params) (fuel : nat) : M trace bool :=
  do env Init ;; do env Strip_show ;; while_true env self fuel 0.

(** The calls of one step of the loop: [update], a transmission when it
    asked for a repaint, and the pause. *)
Definition step_calls (pause : value) (st cy : Z) (repaint : bool) : trace :=
  Update st cy :: (if repaint then [Strip_show] else []) ++ [Sleep pause].

(** The calls of a run of steps, each with its step, its cycle and whether
    [update] asked for a repaint. *)
Definition blocks (pause : value) (sts : list (Z * Z * bool)) : trace :=
  flat_map (fun '(st, cy, repaint) => step_calls pause st cy repaint) sts.

(** In the world [env], after the calls of [tr], each [update] of the steps
    [sts] returned, and asked for a repaint or not as [sts] says. *)
Fixpoint answered (env : world) (pause : value) (tr : trace) (sts : list (Z * Z * bool))
  : Prop :=
  match sts with
  | [] => True
  | (st, cy, repaint) :: rest =>
      (exists v, env tr (Update st cy) = Returns v /\ truthy v = repaint)
      /\ answered env pause (tr ++ step_calls pause st cy repaint) rest
  end.

(** How many transmissions a trace holds, and the pauses it holds. *)
Definition is_show (c : call) : bool :=
  match c with Strip_show => true | _ => false end.
Definition shows (tr : trace) : nat := List.length (filter is_show tr).
Fixpoint sleeps (tr : trace) : list value :=
  match tr with
  | [] => []
  | Sleep v :: tr' => v :: sleeps tr'
  | _ :: tr' => sleeps tr'
  end.

(** Some call of [ext], made after the calls of [tr], raised [e]. *)
Fixpoint raises (env : world) (tr ext : trace) (e : exn) : Prop :=
  match ext with
  | [] => False
  | c :: ext' => env tr c = Raises e \/ raises env (tr ++ [c]) ext' e
  end.

(** The last call of [ext] raised [e], and those before it returned. *)
Definition raised_last (env : world) (tr ext : trace) (e : exn) : Prop :=
  exists pre c, ext = pre ++ [c] /\ returned env tr pre /\ env (tr ++ pre) c = Raises e.

(** What a part of [run] before [cleanup] does from any trace: it adds
    loop calls; they have all returned when it returns, and all but the
    last, which raised what it raises, when it raises. *)
Definition loop_outcome {A : Type} (env : world) (c : M trace A) : Prop :=
  forall tr,
    exists ext,
      snd (c tr) = tr ++ ext
      /\ Forall loop_call ext
      /\ match fst (c tr) with
         | Ok _ => returned env tr ext
         | Raise e => raised_last env tr ext e
         end.

(** [cleanup] has run exactly once, at the end: the trace ends with its
    four calls in order, and there is no shutdown, clearing or release
    before them. *)
Definition cleaned_up_once (tr : trace) : Prop :=
  cleanups tr = 1%nat
  /\ exists pre,
       tr = pre ++ cleanup_calls
       /\ cleanups pre = 0%nat
       /\ ~ In Shutdown pre /\ ~ In Strip_clear pre /\ ~ In Strip_release pre.

(** [cleanup] has not been begun. *)
Definition no_cleanup (tr : trace) : Prop :=
  cleanups tr = 0%nat
  /\ ~ In Shutdown tr /\ ~ In Strip_clear tr /\ ~ In Strip_release tr.

(** The calls of a show without end that is cancelled at its second
    pause. *)
Definition cancelled_calls : trace :=
  [Init; Strip_show;
   Update 0 0; Strip_show; Sleep (pause_sec for_ever);
   Update 0 1; Strip_show; Sleep (pause_sec for_ever)] ++ cleanup_calls.

(** What [time.sleep] takes as a pause: a finite number that is not
    negative. *)
Definition sleepable (v : value) : bool :=
  match v with
  | VInt z => 0 <=? z
  | VBool _ => true
  | VFloat f =>
      is_finite f
      && match float_compare_int f 0 with
         | Some (Eq | Gt) => true
         | _ => false
         end
  | VNone | VStr _ => false
  end.

(** The calls of [cleanup] up to the call [c]. *)
Definition cleanup_upto (c : call) : trace :=
  match c with
  | Shutdown => [Shutdown]
  | Strip_clear => [Shutdown; Strip_clear]
  | Strip_show => [Shutdown; Strip_clear; Strip_show]
  | _ => cleanup_calls
  end.

(** A world in which every call returns, but the first release of the
    transport, which a [KeyboardInterrupt] hits. *)
Definition release_interrupted : world :=
  fun tr c =>
    match c with
    | Strip_release =>
        if existsb (fun k => match k with Strip_release => true | _ => false end) tr
        then Returns VNone
        else Raises KeyboardInterrupt
    | _ => Returns VNone
    end.

(** The parameters after a sequence of calls of [set_parameter]; a call
    that raises leaves them as they are. *)
Definition configure (verify : verifyparameters) (self : params)
    (settings : list (string * value)) : params :=
  fold_left
    (fun p '(name, v) =>
       match set_parameter verify p name v with
       | Ok p' => p'
       | Raise _ => p
       end)
    settings self.

(** Whether the validator of the parameter [name] takes the value [v];
    no value is taken for an unknown name. *)
Definition accepts (verify : verifyparameters) (name : string) (v : value) : bool :=
  let ok (r : result unit) := match r with Ok _ => true | Raise _ => false end in
  if String.eqb name "pause_sec" then ok (not_negative_numeric verify v name)
  else if String.eqb name "num_steps_per_cycle" then ok (positive_integer verify v name)
  else if String.eqb name "num_cycles" then ok (positive_integer verify v name)
  else false.

(** The parameter of the name [name]. *)
Definition field (name : string) (p : params) : value :=
  if String.eqb name "pause_sec" then pause_sec p
  else if String.eqb name "num_steps_per_cycle" then num_steps_per_cycle p
  else if String.eqb name "num_cycles" then num_cycles p
  else VNone.

(** The last value among [settings] that was given for [name] and taken,
    or [default]. *)
Definition last_accepted (verify : verifyparameters) (name : string)
    (settings : list (string * value)) (default : value) : value :=
  fold_left
    (fun cur '(nm, v) => if String.eqb nm name && accepts verify nm v then v else cur)
    settings default.

End ColorCycle.

(** ** Notions of the design document *)

Module Spec.

(** [ceil(n / d)] for a positive [d]: the least [k] with [n <= d * k]. *)
Definition ceil_div (n d : Z) : Z := - ((- n) / d).

(** [round(n / d)] on the exact quotient, for a positive [d]: the nearest
    integer, and of two nearest ones the even one. *)
Definition round_div (n d : Z) : Z :=
  let q := n / d in
  let r := n mod d in
  match 2 * r ?= d with
  | Lt => q
  | Gt => q + 1
  | Eq => if Z.even q then q else q + 1
  end.

(** [q] is an integer nearest to [n / d]. *)
Definition nearest (n d q : Z) : Prop := 2 * Z.abs (d * q - n) <= d.

(** What is asked of the prefix of one brightness, as a test. *)
Definition prefix_ok (b : Z) : bool :=
  match APA102.led_prefix b with
  | Py.Ok p =>
      (Z.land p 224 =? 224)
      && (Z.land p 31 =? round_div (b * 31) 100)
      && (2 * Z.abs (100 * Z.land p 31 - b * 31) <=? 100)
  | Py.Raise _ => false
  end.

(** The prefix does not go down from brightness [b1] to brightness [b2],
    as a test. *)
Definition prefix_le (b1 b2 : Z) : bool :=
  match APA102.led_prefix b1, APA102.led_prefix b2 with
  | Py.Ok p1, Py.Ok p2 => p1 <=? p2
  | _, _ => false
  end.

(** For five bits [m], setting the three high bits adds 224. *)
Definition high_bits_ok (m : Z) : bool :=
  (Z.lor m 224 =? m + 224) && (Z.land (Z.lor m 224) 224 =? 224).

(** A list turned to the left by [k] places. *)
Definition rotl {A : Type} (k : nat) (l : list A) : list A :=
  skipn k l ++ firstn k l.

(** The message to one LED on the wire: its prefix, then blue, green
    and red, the colours as [get_pixel] reads them. *)
Definition pixel_message (s : APA102.strip) (led_num : Z) : list Z :=
  match Py.getitem (APA102.leds s) (4 * led_num), APA102.get_pixel led_num s with
  | Py.Ok prefix, (Py.Ok (red, green, blue), _) => [prefix; blue; green; red]
  | _, _ => []
  end.

(** The sentence of the design document on [cleanup]: whichever way
    [run] is left, by the end of its cycles, by a cancellation or by an
    error, [cleanup] has run exactly once. *)
Definition cleanup_on_every_exit : Prop :=
  forall (env : ColorCycle.world) (self : ColorCycle.params) (fuel : nat)
         (r : Py.result bool) (tr : ColorCycle.trace),
    ColorCycle.run env self fuel [] = (r, tr) ->
    r <> Py.Ok false ->
    ColorCycle.cleanups tr = 1%nat.

(** The wire format of a frame. *)
Definition frame (s : APA102.strip) : list Z :=
  [0; 0; 0; 0]
  ++ flat_map (pixel_message s) (Py.range (APA102.num_leds s))
  ++ repeat 0 (Z.to_nat (ceil_div (APA102.num_leds s) 16)).

End Spec.

(** ** Properties of the Python primitives *)

Section PyFacts.
Import Py.

Lemma len_nonneg {A : Type} (l : list A) : 0 <= len l.
Proof. unfold len. lia. Qed.

Lemma in_range (n i : Z) : In i (range n) <-> 0 <= i < n.
Proof.
  unfold range. rewrite in_map_iff. split.
  - intros [k [<- Hk]]. apply in_seq in Hk. lia.
  - intros Hi. exists (Z.to_nat i). split; [lia | apply in_seq; lia].
Qed.

Lemma range_length (n : Z) : length (range n) = Z.to_nat n.
Proof. unfold range. now rewrite length_map, length_seq. Qed.

Lemma update_length {A : Type} (l : list A) (n : nat) (v : A) :
  length (update l n v) = length l.
Proof.
  revert n. induction l as [|h t IH]; intros [|n]; simpl; auto.
Qed.

Lemma nth_update_other {A : Type} (l : list A) (n j : nat) (v d : A) :
  j <> n -> nth j (update l n v) d = nth j l d.
Proof.
  revert n j. induction l as [|h t IH]; intros [|n] [|j] Hj; simpl; auto.
  congruence.
Qed.

Lemma nth_update_same {A : Type} (l : list A) (n : nat) (v d : A) :
  (n < length l)%nat -> nth n (update l n v) d = v.
Proof.
  revert n. induction l as [|h t IH]; intros [|n] Hn; simpl in *; try lia; auto.
  apply IH. lia.
Qed.

Lemma index_of_in_range {A : Type} (l : list A) (i : Z) :
  0 <= i < len l -> index_of l i = Ok (Z.to_nat i).
Proof.
  intros Hi. unfold index_of.
  destruct (Z.leb_spec 0 i); destruct (Z.ltb_spec i (len l)); simpl; auto; lia.
Qed.

Lemma setitem_in_range (l : list Z) (i v : Z) :
  0 <= i < len l -> setitem l i v = Ok (update l (Z.to_nat i) v).
Proof. intros Hi. unfold setitem. now rewrite index_of_in_range. Qed.

Lemma getitem_in_range (l : list Z) (i : Z) :
  0 <= i < len l -> getitem l i = Ok (nth (Z.to_nat i) l 0).
Proof. intros Hi. unfold getitem. now rewrite index_of_in_range. Qed.

Lemma setitem_len (l l' : list Z) (i v : Z) :
  setitem l i v = Ok l' -> len l' = len l.
Proof.
  unfold setitem. destruct (index_of l i); simpl; [|discriminate].
  intros [= <-]. unfold len. now rewrite update_length.
Qed.

Lemma list_mul_single {A : Type} (x : A) (k : Z) :
  list_mul [x] k = repeat x (Z.to_nat k).
Proof.
  unfold list_mul. induction (Z.to_nat k) as [|n IH]; simpl; congruence.
Qed.

Lemma list_mul_len {A : Type} (l : list A) (k : Z) :
  0 <= k -> len (list_mul l k) = len l * k.
Proof.
  intros Hk. unfold list_mul, len.
  rewrite <- (Z2Nat.id k) at 2 by assumption.
  induction (Z.to_nat k) as [|n IH]; simpl; [lia|].
  rewrite length_app. lia.
Qed.

Lemma rotate_back {A : Type} (l : list A) (c : nat) :
  (c <= length l)%nat ->
  let l1 := skipn c l ++ firstn c l in
  skipn (length l - c) l1 ++ firstn (length l - c) l1 = l.
Proof.
  intros Hc l1. subst l1.
  assert (Hk : length (skipn c l) = (length l - c)%nat) by apply length_skipn.
  rewrite <- Hk.
  rewrite skipn_app, firstn_app, Nat.sub_diag, skipn_all, firstn_all.
  simpl. rewrite app_nil_r. apply firstn_skipn.
Qed.

End PyFacts.

(** ** The protocol encoder *)

Section Encoder.
Import Py APA102.

Lemma prefix_ok_all : forallb Spec.prefix_ok (range 101) = true.
Proof. vm_compute. reflexivity. Qed.

(** C5: for every brightness [b] from 0 to 100, [led_prefix b] returns a
    byte whose three high bits are set ([& 0xE0 = 0xE0]) and whose five
    low bits are [b * 31 / 100] rounded to the nearest integer. *)
Theorem led_prefix_bits (b : Z) :
  0 <= b <= 100 ->
  exists p,
    led_prefix b = Ok p
    /\ Z.land p 224 = 224
    /\ Z.land p 31 = Spec.round_div (b * 31) 100
    /\ Spec.nearest (b * 31) 100 (Z.land p 31).
Proof.
  intros Hb.
  assert (Hin : In b (range 101)) by (apply in_range; lia).
  pose proof prefix_ok_all as Hall.
  rewrite forallb_forall in Hall. specialize (Hall b Hin).
  unfold Spec.prefix_ok in Hall.
  destruct (led_prefix b) as [p|e]; [|discriminate].
  apply andb_prop in Hall. destruct Hall as [Hall Hnear].
  apply andb_prop in Hall. destruct Hall as [Hhigh Hlow].
  exists p. repeat split.
  - now apply Z.eqb_eq.
  - now apply Z.eqb_eq.
  - unfold Spec.nearest. now apply Z.leb_le.
Qed.

Lemma led_prefix_bits_witness :
  0 <= 50 <= 100
  /\ exists p,
       led_prefix 50 = Ok p
       /\ Z.land p 224 = 224
       /\ Z.land p 31 = Spec.round_div (50 * 31) 100
       /\ Spec.nearest (50 * 31) 100 (Z.land p 31).
Proof. split; [lia | apply (led_prefix_bits 50); lia]. Defined.

Lemma ceil_div_16 (n : Z) : (n + 15) / 16 = Spec.ceil_div n 16.
Proof. unfold Spec.ceil_div. Z.to_euclidean_division_equations. lia. Qed.

Lemma ceil_div_least (n : Z) :
  n <= 16 * Spec.ceil_div n 16 /\ 16 * (Spec.ceil_div n 16 - 1) < n.
Proof. unfold Spec.ceil_div. Z.to_euclidean_division_equations. lia. Qed.

Lemma spi_end_frame_repeat (n : Z) :
  spi_end_frame n = repeat 0 (Z.to_nat (Spec.ceil_div n 16)).
Proof. unfold spi_end_frame. now rewrite list_mul_single, ceil_div_16. Qed.

(** C8: for every [num_leds] from 1 to 1024, [spi_end_frame num_leds] is
    a sequence of exactly [ceil(num_leds / 16)] bytes, all of them zero. *)
Theorem spi_end_frame_zeros (n : Z) :
  1 <= n <= 1024 ->
  len (spi_end_frame n) = Spec.ceil_div n 16
  /\ Forall (fun byte => byte = 0) (spi_end_frame n).
Proof.
  intros Hn. rewrite spi_end_frame_repeat. split.
  - unfold len. rewrite repeat_length.
    pose proof (ceil_div_least n). lia.
  - apply Forall_forall. intros x Hx. now apply repeat_spec in Hx.
Qed.

Lemma spi_end_frame_zeros_witness :
  1 <= 300 <= 1024
  /\ len (spi_end_frame 300) = Spec.ceil_div 300 16
  /\ Forall (fun byte => byte = 0) (spi_end_frame 300).
Proof. split; [lia | apply (spi_end_frame_zeros 300); lia]. Defined.

End Encoder.

(** ** The strip driver *)

Section Driver.
Import Py APA102.
Local Open Scope py_scope.

Lemma keeps_ret {A : Type} (P : strip -> Prop) (a : A) : keeps P (ret a).
Proof. intros s Hs. exact Hs. Qed.

Lemma keeps_raise {A : Type} (P : strip -> Prop) (e : exn) :
  keeps P (raise (A := A) e).
Proof. intros s Hs. exact Hs. Qed.

Lemma keeps_lift {A : Type} (P : strip -> Prop) (r : result A) : keeps P (lift r).
Proof. intros s Hs. exact Hs. Qed.

Lemma keeps_get (P : strip -> Prop) : keeps P get.
Proof. intros s Hs. exact Hs. Qed.

Lemma keeps_bind {A B : Type} (P : strip -> Prop) (c : M strip A) (k : A -> M strip B) :
  keeps P c -> (forall a, keeps P (k a)) -> keeps P (mbind c k).
Proof.
  intros Hc Hk s Hs. unfold mbind.
  specialize (Hc s Hs). destruct (c s) as [[a|e] s1]; simpl in *.
  - now apply Hk.
  - exact Hc.
Qed.

Lemma keeps_for_each {X : Type} (P : strip -> Prop) (xs : list X) (body : X -> M strip unit) :
  (forall x, keeps P (body x)) -> keeps P (for_each xs body).
Proof.
  intros Hbody. induction xs as [|x xs IH]; simpl.
  - apply keeps_ret.
  - apply keeps_bind; auto.
Qed.

Lemma wf_shape (s : strip) : wf s <-> shape (num_leds s) (4 * num_leds s) (4 * num_leds s) s.
Proof. unfold wf, shape. tauto. Qed.

Lemma leds_setitem_eq (i v : Z) (s : strip) :
  leds_setitem i v s =
  match setitem (leds s) i v with
  | Ok l => (Ok tt, set_leds l s)
  | Raise e => (Raise e, s)
  end.
Proof.
  unfold leds_setitem, mbind, get, lift, put.
  destruct (setitem (leds s) i v); reflexivity.
Qed.

Lemma synced_setitem_eq (i v : Z) (s : strip) :
  synced_setitem i v s =
  match setitem (synced_buffer s) i (wrap_c_int v) with
  | Ok l => (Ok tt, set_synced_buffer l s)
  | Raise e => (Raise e, s)
  end.
Proof.
  unfold synced_setitem, mbind, get, lift, put.
  destruct (setitem (synced_buffer s) i (wrap_c_int v)); reflexivity.
Qed.

Lemma leds_getitem_eq (i : Z) (s : strip) :
  leds_getitem i s = (getitem (leds s) i, s).
Proof. reflexivity. Qed.

Lemma synced_getitem_eq (i : Z) (s : strip) :
  synced_getitem i s = (getitem (synced_buffer s) i, s).
Proof. reflexivity. Qed.

Lemma rotate_eq (p : Z) (s : strip) :
  rotate p s =
  match int_mod p (num_leds s) with
  | Ok m =>
      (Ok tt, set_leds (slice_from (leds s) (4 * m) ++ slice_to (leds s) (4 * m)) s)
  | Raise e => (Raise e, s)
  end.
Proof.
  unfold rotate, mbind, get, lift, put.
  destruct (int_mod p (num_leds s)); reflexivity.
Qed.

Section Shape.
Variables n a b : Z.

Lemma keeps_leds_setitem (i v : Z) : keeps (shape n a b) (leds_setitem i v).
Proof.
  intros s Hs. rewrite leds_setitem_eq.
  destruct (setitem (leds s) i v) as [l|e] eqn:E; simpl; [|exact Hs].
  apply setitem_len in E. unfold shape in *. simpl. intuition congruence.
Qed.

Lemma keeps_synced_setitem (i v : Z) : keeps (shape n a b) (synced_setitem i v).
Proof.
  intros s Hs. rewrite synced_setitem_eq.
  destruct (setitem (synced_buffer s) i (wrap_c_int v)) as [l|e] eqn:E; simpl; [|exact Hs].
  apply setitem_len in E. unfold shape in *. simpl. intuition congruence.
Qed.

Lemma keeps_leds_getitem (i : Z) : keeps (shape n a b) (leds_getitem i).
Proof. intros s Hs. exact Hs. Qed.

Lemma keeps_synced_getitem (i : Z) : keeps (shape n a b) (synced_getitem i).
Proof. intros s Hs. exact Hs. Qed.

Lemma keeps_spi_xfer2 (data : list Z) : keeps (shape n a b) (spi_xfer2 data).
Proof. intros s Hs. exact Hs. Qed.

Lemma keeps__set_pixel (i red green blue : Z) :
  keeps (shape n a b) (_set_pixel i red green blue).
Proof.
  unfold _set_pixel. apply keeps_bind; [apply keeps_get|]. intros s.
  destruct (i <? 0); [apply keeps_ret|].
  destruct (i >=? num_leds s); [apply keeps_ret|].
  repeat (apply keeps_bind; [apply keeps_leds_setitem|intros _]).
  apply keeps_leds_setitem.
Qed.

Lemma keeps__set_brightness (i br : Z) : keeps (shape n a b) (_set_brightness i br).
Proof.
  unfold _set_brightness. apply keeps_bind; [apply keeps_lift|]. intros p.
  apply keeps_leds_setitem.
Qed.

Lemma keeps_set_global_brightness (br : Z) :
  keeps (shape n a b) (set_global_brightness br).
Proof.
  unfold set_global_brightness. apply keeps_bind; [apply keeps_get|]. intros s.
  apply keeps_for_each. intros i. apply keeps__set_brightness.
Qed.

Lemma keeps_show : keeps (shape n a b) show.
Proof.
  unfold show. apply keeps_bind; [apply keeps_spi_xfer2|]. intros _.
  apply keeps_bind; [apply keeps_get|]. intros s.
  apply keeps_bind; [apply keeps_spi_xfer2|]. intros _.
  apply keeps_spi_xfer2.
Qed.

Lemma keeps_sync_up : keeps (shape n a b) sync_up.
Proof.
  unfold sync_up. apply keeps_bind; [apply keeps_get|]. intros s.
  apply keeps_for_each. intros i.
  apply keeps_bind; [apply keeps_leds_getitem|]. intros v.
  apply keeps_synced_setitem.
Qed.

Lemma keeps_sync_down : keeps (shape n a b) sync_down.
Proof.
  unfold sync_down. apply keeps_bind; [apply keeps_get|]. intros s.
  apply keeps_for_each. intros i.
  apply keeps_bind; [apply keeps_synced_getitem|]. intros v.
  apply keeps_leds_setitem.
Qed.

Lemma keeps_rotate (p : Z) : keeps (shape n a b) (rotate p).
Proof.
  intros s Hs. rewrite rotate_eq.
  destruct (int_mod p (num_leds s)) as [m|e]; simpl; [|exact Hs].
  unfold shape in *. simpl. destruct Hs as (Hn & Ha & Hb).
  repeat split; auto.
  unfold slice_from, slice_to, len in *.
  rewrite length_app, length_skipn, length_firstn. lia.
Qed.

Lemma keeps_exec (o : op) : keeps (shape n a b) (exec o).
Proof.
  destruct o; simpl.
  - apply keeps__set_pixel.
  - apply keeps__set_brightness.
  - apply keeps_set_global_brightness.
  - apply keeps_show.
  - apply keeps_sync_up.
  - apply keeps_sync_down.
  - apply keeps_rotate.
  - apply keeps_synced_setitem.
Qed.

Lemma shape_after (history : list op) (s : strip) :
  shape n a b s -> shape n a b (after history s).
Proof.
  revert s. induction history as [|o rest IH]; intros s Hs; simpl; auto.
  apply IH. now apply keeps_exec.
Qed.
End Shape.

Lemma init_wf (n hz b0 : Z) (s : strip) :
  0 <= n -> init n hz b0 = Ok s -> wf s.
Proof.
  intros Hn. unfold init.
  destruct (n >? 1024); [discriminate|].
  set (s0 := mkStrip n hz (list_mul [0; 0; 0; 0] n) [] []).
  assert (H0 : shape n (4 * n) 0 s0).
  { unfold shape. simpl. rewrite list_mul_len by assumption.
    unfold len. simpl. repeat split; lia. }
  apply (keeps_set_global_brightness _ _ _ b0) in H0.
  destruct (set_global_brightness b0 s0) as [[u|e] s1]; [|discriminate].
  intros [= <-]. destruct H0 as (H1 & H2 & _). cbn [snd] in H1, H2.
  unfold wf. cbn [leds synced_buffer num_leds set_synced_buffer].
  unfold len in *. rewrite length_map. lia.
Qed.

(** C9: the frame buffer holds exactly [4 * num_leds] entries when the
    strip is made, and after any history of driver operations
    ([set_pixel], [set_brightness], [rotate] with any argument,
    [sync_down] and the others), so at all times. *)
Theorem frame_buffer_length (n hz b0 : Z) (s : strip) (history : list op) :
  0 <= n ->
  init n hz b0 = Ok s ->
  len (leds s) = 4 * num_leds s
  /\ num_leds (after history s) = num_leds s
  /\ len (leds (after history s)) = 4 * num_leds (after history s).
Proof.
  intros Hn Hinit.
  pose proof (init_wf n hz b0 s Hn Hinit) as Hwf.
  split; [apply Hwf|].
  apply wf_shape in Hwf.
  apply (shape_after _ _ _ history) in Hwf.
  unfold shape in Hwf. intuition congruence.
Qed.

Lemma frame_buffer_length_witness :
  0 <= 3
  /\ init 3 4000000 100 = Ok three_leds
  /\ len (leds three_leds) = 4 * num_leds three_leds
  /\ num_leds (after [Set_pixel 0 255 0 0; Rotate (-1); Sync_down] three_leds)
     = num_leds three_leds
  /\ len (leds (after [Set_pixel 0 255 0 0; Rotate (-1); Sync_down] three_leds))
     = 4 * num_leds (after [Set_pixel 0 255 0 0; Rotate (-1); Sync_down] three_leds).
Proof.
  split; [lia|]. split; [reflexivity|].
  apply (frame_buffer_length 3 4000000 100 three_leds
           [Set_pixel 0 255 0 0; Rotate (-1); Sync_down]); [lia | reflexivity].
Defined.

(** C7: for every index [i] with [i < 0] or [i >= num_leds] and every
    red, green and blue, [set_pixel] raises nothing and leaves the strip,
    and with it every byte of the frame buffer, as it was. *)
Theorem set_pixel_outside (s : strip) (i red green blue : Z) :
  i < 0 \/ num_leds s <= i ->
  _set_pixel i red green blue s = (Ok tt, s)
  /\ set_pixel i red green blue s = (Ok tt, s).
Proof.
  intros Hi.
  assert (H : _set_pixel i red green blue s = (Ok tt, s)).
  { unfold _set_pixel, mbind, get.
    destruct (Z.ltb_spec i 0) as [Hlt|Hge]; [reflexivity|].
    rewrite Z.geb_leb.
    destruct (Z.leb_spec (num_leds s) i) as [Hle|Hgt]; [reflexivity|lia]. }
  split; [exact H | exact H].
Qed.

Lemma set_pixel_outside_witness :
  (-1 < 0 \/ num_leds three_leds <= -1)
  /\ _set_pixel (-1) 9 8 7 three_leds = (Ok tt, three_leds)
  /\ set_pixel (-1) 9 8 7 three_leds = (Ok tt, three_leds).
Proof.
  split; [left; lia|].
  apply (set_pixel_outside three_leds (-1) 9 8 7). left. lia.
Defined.

Lemma _set_pixel_inside (s : strip) (i red green blue : Z) :
  wf s -> 0 <= i < num_leds s ->
  _set_pixel i red green blue s =
  (Ok tt,
   set_leds (update (update (update (leds s) (Z.to_nat (4 * i + 3)) red)
                            (Z.to_nat (4 * i + 2)) green)
                    (Z.to_nat (4 * i + 1)) blue) s).
Proof.
  intros [Hlen _] Hi.
  unfold _set_pixel, mbind at 1, get.
  destruct (Z.ltb_spec i 0) as [Hlt|_]; [lia|].
  rewrite Z.geb_leb.
  destruct (Z.leb_spec (num_leds s) i) as [Hle|_]; [lia|].
  unfold mbind.
  rewrite leds_setitem_eq, setitem_in_range by lia.
  rewrite leds_setitem_eq. cbn [leds set_leds].
  rewrite setitem_in_range by (unfold len in *; rewrite update_length; lia).
  rewrite leds_setitem_eq. cbn [leds set_leds].
  rewrite setitem_in_range by (unfold len in *; rewrite !update_length; lia).
  reflexivity.
Qed.

Lemma _set_brightness_eq (i br : Z) (s : strip) :
  _set_brightness i br s =
  match led_prefix br with
  | Ok p => leds_setitem (4 * i) p s
  | Raise e => (Raise e, s)
  end.
Proof.
  unfold _set_brightness, mbind, lift. destruct (led_prefix br); reflexivity.
Qed.

(** C10: for every index [i] of the strip, [set_pixel] on [i] changes no
    byte of the frame buffer but the three colour bytes of pixel [i] (the
    prefix of pixel [i] and all the bytes of the other pixels stay), and
    [set_brightness] on [i] changes no byte but the prefix of pixel [i]
    (all the colour bytes stay). *)
Theorem pixel_writes_are_local (s : strip) (i : Z) :
  wf s ->
  0 <= i < num_leds s ->
  (forall red green blue,
      exists s',
        _set_pixel i red green blue s = (Ok tt, s')
        /\ length (leds s') = length (leds s)
        /\ forall j : nat,
             Z.of_nat j <> 4 * i + 1 ->
             Z.of_nat j <> 4 * i + 2 ->
             Z.of_nat j <> 4 * i + 3 ->
             nth j (leds s') 0 = nth j (leds s) 0)
  /\ (forall brightness,
        let s' := snd (_set_brightness i brightness s) in
        length (leds s') = length (leds s)
        /\ forall j : nat,
             Z.of_nat j <> 4 * i ->
             nth j (leds s') 0 = nth j (leds s) 0).
Proof.
  intros Hwf Hi. split.
  - intros red green blue. eexists. split; [now apply _set_pixel_inside|].
    cbn [leds set_leds]. split; [now rewrite !update_length|].
    intros j H1 H2 H3. rewrite !nth_update_other by lia. reflexivity.
  - intros br s'. subst s'. rewrite _set_brightness_eq.
    destruct (led_prefix br) as [p|e]; [|split; reflexivity].
    destruct Hwf as [Hlen _].
    rewrite leds_setitem_eq, setitem_in_range by lia.
    cbn [snd leds set_leds]. split; [now rewrite update_length|].
    intros j Hj. rewrite nth_update_other by lia. reflexivity.
Qed.

Lemma three_leds_wf : wf three_leds.
Proof. split; reflexivity. Qed.

Lemma pixel_writes_are_local_witness :
  wf three_leds
  /\ 0 <= 1 < num_leds three_leds
  /\ (forall red green blue,
        exists s',
          _set_pixel 1 red green blue three_leds = (Ok tt, s')
          /\ length (leds s') = length (leds three_leds)
          /\ forall j : nat,
               Z.of_nat j <> 4 * 1 + 1 ->
               Z.of_nat j <> 4 * 1 + 2 ->
               Z.of_nat j <> 4 * 1 + 3 ->
               nth j (leds s') 0 = nth j (leds three_leds) 0)
  /\ (forall brightness,
        let s' := snd (_set_brightness 1 brightness three_leds) in
        length (leds s') = length (leds three_leds)
        /\ forall j : nat,
             Z.of_nat j <> 4 * 1 ->
             nth j (leds s') 0 = nth j (leds three_leds) 0).
Proof.
  split; [exact three_leds_wf|]. split; [simpl; lia|].
  apply (pixel_writes_are_local three_leds 1); [exact three_leds_wf | simpl; lia].
Defined.

Lemma slice_bound_inside {A : Type} (l : list A) (c : Z) :
  0 <= c <= len l -> slice_bound l c = Z.to_nat c.
Proof.
  intros Hc. unfold slice_bound.
  destruct (Z.ltb_spec c 0); [lia|]. f_equal. lia.
Qed.

Lemma rotate_inside (p : Z) (s : strip) :
  wf s -> 0 < num_leds s ->
  let cutoff := 4 * (p mod num_leds s) in
  rotate p s =
  (Ok tt, set_leds (skipn (Z.to_nat cutoff) (leds s) ++ firstn (Z.to_nat cutoff) (leds s)) s).
Proof.
  intros [Hlen _] Hn cutoff. rewrite rotate_eq. unfold int_mod.
  destruct (Z.eqb_spec (num_leds s) 0) as [H0|_]; [lia|].
  pose proof (Z.mod_pos_bound p (num_leds s) Hn) as Hm.
  unfold slice_from, slice_to.
  rewrite slice_bound_inside by (fold cutoff; lia).
  reflexivity.
Qed.

Lemma mod_opp_cases (p n : Z) :
  0 < n ->
  (p mod n = 0 /\ (- p) mod n = 0) \/ (p mod n <> 0 /\ (- p) mod n = n - p mod n).
Proof.
  intros Hn. destruct (Z.eq_dec (p mod n) 0) as [Hz|Hnz].
  - left. split; [exact Hz|]. apply Z.mod_opp_l_z; [lia | exact Hz].
  - right. split; [exact Hnz|]. apply Z.mod_opp_l_nz; [lia | exact Hnz].
Qed.

Lemma set_leds_back (s : strip) (l1 l : list Z) :
  l = leds s -> set_leds l (set_leds l1 s) = s.
Proof. intros ->. destruct s. reflexivity. Qed.

(** C6: on a strip with [num_leds > 0] and for every [p], negative and
    zero too, [rotate p] takes the cutoff [4 * (p mod num_leds)], which is
    not negative, and makes the buffer [buffer[cutoff:] ++ buffer[:cutoff]];
    [rotate (- p)] after it gives back the strip, and so the frame buffer,
    byte for byte. *)
Theorem rotate_there_and_back (s : strip) (p : Z) :
  wf s ->
  0 < num_leds s ->
  let cutoff := 4 * (p mod num_leds s) in
  0 <= cutoff < 4 * num_leds s
  /\ rotate p s
     = (Ok tt, set_leds (slice_from (leds s) cutoff ++ slice_to (leds s) cutoff) s)
  /\ slice_from (leds s) cutoff = skipn (Z.to_nat cutoff) (leds s)
  /\ slice_to (leds s) cutoff = firstn (Z.to_nat cutoff) (leds s)
  /\ rotate (- p) (snd (rotate p s)) = (Ok tt, s).
Proof.
  intros Hwf Hn cutoff.
  pose proof (Z.mod_pos_bound p (num_leds s) Hn) as Hm.
  assert (Hc : 0 <= cutoff < 4 * num_leds s) by (subst cutoff; lia).
  pose proof Hwf as [Hlen Hmirror].
  assert (Hb : slice_bound (leds s) cutoff = Z.to_nat cutoff)
    by (apply slice_bound_inside; lia).
  split; [exact Hc|].
  split.
  { rewrite rotate_inside by assumption. fold cutoff.
    unfold slice_from, slice_to. now rewrite Hb. }
  split; [unfold slice_from; now rewrite Hb|].
  split; [unfold slice_to; now rewrite Hb|].
  rewrite (rotate_inside p s Hwf Hn). fold cutoff. cbn [snd].
  set (l1 := skipn (Z.to_nat cutoff) (leds s) ++ firstn (Z.to_nat cutoff) (leds s)).
  assert (Hl1 : length l1 = length (leds s)).
  { subst l1. rewrite length_app, length_skipn, length_firstn. lia. }
  assert (Hwf1 : wf (set_leds l1 s)).
  { split; cbn [leds set_leds synced_buffer num_leds]; [|exact Hmirror].
    unfold len in *. rewrite Hl1. exact Hlen. }
  rewrite (rotate_inside (- p) (set_leds l1 s) Hwf1 Hn).
  cbn [leds set_leds num_leds]. f_equal.
  apply set_leds_back.
  destruct (mod_opp_cases p (num_leds s) Hn) as [[Hz Hoz]|[Hnz Honz]].
  - rewrite Hoz. subst l1 cutoff. rewrite Hz. simpl.
    now rewrite !app_nil_r.
  - rewrite Honz.
    replace (Z.to_nat (4 * (num_leds s - p mod num_leds s)))
      with (length (leds s) - Z.to_nat cutoff)%nat
      by (subst cutoff; unfold len in Hlen; lia).
    subst l1. apply rotate_back. unfold len in Hlen. lia.
Qed.

Lemma rotate_there_and_back_witness :
  wf three_leds
  /\ 0 < num_leds three_leds
  /\ let cutoff := 4 * ((-1) mod num_leds three_leds) in
     0 <= cutoff < 4 * num_leds three_leds
     /\ rotate (-1) three_leds
        = (Ok tt, set_leds (slice_from (leds three_leds) cutoff
                            ++ slice_to (leds three_leds) cutoff) three_leds)
     /\ slice_from (leds three_leds) cutoff = skipn (Z.to_nat cutoff) (leds three_leds)
     /\ slice_to (leds three_leds) cutoff = firstn (Z.to_nat cutoff) (leds three_leds)
     /\ rotate (- (-1)) (snd (rotate (-1) three_leds)) = (Ok tt, three_leds).
Proof.
  split; [exact three_leds_wf|]. split; [simpl; lia|].
  apply (rotate_there_and_back three_leds (-1)); [exact three_leds_wf | simpl; lia].
Defined.

Lemma show_eq (s : strip) :
  show s =
  (Ok tt,
   mkStrip (num_leds s) (max_speed_hz s) (leds s) (synced_buffer s)
           (((spi_sent s ++ [spi_start_frame]) ++ [leds s])
              ++ [spi_end_frame (num_leds s)])).
Proof. reflexivity. Qed.

Lemma flat_map_in_ext {A B : Type} (f g : A -> list B) (l : list A) :
  (forall a, In a l -> f a = g a) -> flat_map f l = flat_map g l.
Proof.
  induction l as [|a l IH]; intros H; simpl; [reflexivity|].
  rewrite (H a) by now left. rewrite IH; [reflexivity|].
  intros b Hb. apply H. now right.
Qed.

Lemma flat_map_of_map {A B C : Type} (f : B -> list C) (g : A -> B) (l : list A) :
  flat_map f (map g l) = flat_map (fun a => f (g a)) l.
Proof. induction l as [|a l IH]; simpl; congruence. Qed.

(** A list of [4 * n] entries is its groups of four, one after another. *)
Lemma groups_of_four (n : nat) (l : list Z) :
  length l = (4 * n)%nat ->
  flat_map (fun k => [nth (4 * k) l 0; nth (4 * k + 1) l 0;
                      nth (4 * k + 2) l 0; nth (4 * k + 3) l 0]) (seq 0 n) = l.
Proof.
  revert l. induction n as [|n IH]; intros l Hl.
  - destruct l; [reflexivity | simpl in Hl; lia].
  - destruct l as [|a [|b [|c [|d l']]]]; simpl in Hl; try lia.
    rewrite <- cons_seq, <- seq_shift. cbn [flat_map].
    rewrite flat_map_of_map.
    change (nth (4 * 0) (a :: b :: c :: d :: l') 0) with a.
    change (nth (4 * 0 + 1) (a :: b :: c :: d :: l') 0) with b.
    change (nth (4 * 0 + 2) (a :: b :: c :: d :: l') 0) with c.
    change (nth (4 * 0 + 3) (a :: b :: c :: d :: l') 0) with d.
    cbn [app]. do 4 f_equal.
    etransitivity; [|apply (IH l'); lia].
    apply flat_map_in_ext. intros k _.
    replace (4 * S k)%nat with (S (S (S (S (4 * k))))) by lia.
    reflexivity.
Qed.

Lemma get_pixel_inside (s : strip) (k : nat) :
  wf s -> Z.of_nat k < num_leds s ->
  get_pixel (Z.of_nat k) s =
  (Ok (nth (4 * k + 3) (leds s) 0, nth (4 * k + 2) (leds s) 0, nth (4 * k + 1) (leds s) 0), s).
Proof.
  intros [Hlen _] Hk. unfold get_pixel, mbind.
  rewrite !leds_getitem_eq, !getitem_in_range by lia.
  unfold ret. repeat f_equal; lia.
Qed.

Lemma pixel_message_inside (s : strip) (k : nat) :
  wf s -> Z.of_nat k < num_leds s ->
  Spec.pixel_message s (Z.of_nat k) =
  [nth (4 * k) (leds s) 0; nth (4 * k + 1) (leds s) 0;
   nth (4 * k + 2) (leds s) 0; nth (4 * k + 3) (leds s) 0].
Proof.
  intros Hwf Hk. unfold Spec.pixel_message.
  rewrite get_pixel_inside by assumption.
  destruct Hwf as [Hlen _].
  rewrite getitem_in_range by lia.
  repeat f_equal; lia.
Qed.

Lemma leds_are_messages (s : strip) :
  wf s -> flat_map (Spec.pixel_message s) (range (num_leds s)) = leds s.
Proof.
  intros Hwf. unfold range. rewrite flat_map_of_map.
  etransitivity;
    [|apply (groups_of_four (Z.to_nat (num_leds s)) (leds s));
      destruct Hwf as [Hlen _]; unfold len in Hlen; lia].
  apply flat_map_in_ext. intros k Hk. apply in_seq in Hk.
  apply pixel_message_inside; [exact Hwf | lia].
Qed.

(** C4: [show] transmits, after what was sent before, exactly the four
    zero bytes of the start frame, then the frame buffer, which is for each
    pixel in index order its prefix, blue, green and red, then
    [ceil(num_leds / 16)] zero bytes.  For three LEDs made at brightness
    100 and set to red, green and blue, the bytes are
    [0,0,0,0, 0xFF,0,0,255, 0xFF,0,255,0, 0xFF,255,0,0, 0]. *)
Theorem show_wire_format (s : strip) :
  wf s ->
  (exists s',
      show s = (Ok tt, s')
      /\ leds s' = leds s
      /\ transmitted s' = transmitted s ++ Spec.frame s
      /\ Spec.frame s
         = [0; 0; 0; 0] ++ leds s ++ repeat 0 (Z.to_nat (Spec.ceil_div (num_leds s) 16)))
  /\ (forall hz,
        exists s0,
          init 3 hz 100 = Ok s0
          /\ transmitted
               (snd ((set_pixel 0 255 0 0 ;;
                      set_pixel 1 0 255 0 ;;
                      set_pixel 2 0 0 255 ;;
                      show)%py s0))
             = [0; 0; 0; 0; 255; 0; 0; 255; 255; 0; 255; 0; 255; 255; 0; 0; 0]).
Proof.
  intros Hwf. split.
  - assert (Hframe : Spec.frame s
      = [0; 0; 0; 0] ++ leds s ++ repeat 0 (Z.to_nat (Spec.ceil_div (num_leds s) 16))).
    { unfold Spec.frame. now rewrite leds_are_messages. }
    eexists. split; [apply show_eq|]. split; [reflexivity|]. split; [|exact Hframe].
    rewrite Hframe. unfold transmitted. cbn [spi_sent].
    rewrite !concat_app. cbn [concat]. rewrite !app_nil_r, <- !app_assoc.
    now rewrite spi_end_frame_repeat.
  - intros hz. eexists. split; reflexivity.
Qed.

Lemma show_wire_format_witness :
  wf three_leds
  /\ (exists s',
        show three_leds = (Ok tt, s')
        /\ leds s' = leds three_leds
        /\ transmitted s' = transmitted three_leds ++ Spec.frame three_leds
        /\ Spec.frame three_leds
           = [0; 0; 0; 0] ++ leds three_leds
             ++ repeat 0 (Z.to_nat (Spec.ceil_div (num_leds three_leds) 16)))
  /\ (forall hz,
        exists s0,
          init 3 hz 100 = Ok s0
          /\ transmitted
               (snd ((set_pixel 0 255 0 0 ;;
                      set_pixel 1 0 255 0 ;;
                      set_pixel 2 0 0 255 ;;
                      show)%py s0))
             = [0; 0; 0; 0; 255; 0; 0; 255; 255; 0; 255; 0; 255; 255; 0; 0; 0]).
Proof.
  split; [exact three_leds_wf|].
  apply (show_wire_format three_leds). exact three_leds_wf.
Defined.

End Driver.

(** ** The configuration of a colour cycle *)

Section ConfigurationFacts.
Import Py ColorCycle.
Local Open Scope string_scope.
Local Open Scope Z_scope.

Lemma check_runnable_ok (p : params) :
  check_runnable p = Ok tt
  <-> truthy (pause_sec p) = true
      /\ truthy (num_steps_per_cycle p) = true
      /\ truthy (num_cycles p) = true.
Proof.
  unfold check_runnable.
  destruct (truthy (pause_sec p)), (truthy (num_steps_per_cycle p)),
    (truthy (num_cycles p)); simpl; split; intros H;
    try discriminate; try reflexivity; intuition discriminate.
Qed.

(** Of the parameters that are not set, the first is the one named. *)
Lemma check_runnable_unset (p : params) :
  (pause_sec p = VNone -> check_runnable p = Raise (missing "pause_sec"))
  /\ (truthy (pause_sec p) = true -> num_steps_per_cycle p = VNone ->
      check_runnable p = Raise (missing "num_steps_per_cycle"))
  /\ (truthy (pause_sec p) = true -> truthy (num_steps_per_cycle p) = true ->
      num_cycles p = VNone ->
      check_runnable p = Raise (missing "num_cycles")).
Proof.
  unfold check_runnable. repeat split.
  - intros ->. reflexivity.
  - intros -> ->. reflexivity.
  - intros -> -> ->. reflexivity.
Qed.

(** A count of [-1], for a show without end, passes for set. *)
Lemma check_runnable_unbounded (pause steps : value) :
  truthy pause = true -> truthy steps = true ->
  check_runnable (mkParams pause steps (VInt (-1)) "rgb") = Ok tt.
Proof. intros Hp Hs. apply check_runnable_ok. simpl. auto. Qed.

(** Whatever the validators are: a pause that [set_parameter] takes and
    that counts as false, as 0 and 0.0 do, is reported missing. *)
Lemma falsy_pause_is_missing (verify : verifyparameters) (p : params) (v : value) :
  not_negative_numeric verify v "pause_sec" = Ok tt ->
  truthy v = false ->
  exists p',
    set_parameter verify p "pause_sec" v = Ok p'
    /\ pause_sec p' = v
    /\ check_runnable p' = Raise (missing "pause_sec").
Proof.
  intros Hv Hf. eexists. cbn. rewrite Hv. cbn. split; [reflexivity|].
  split; [reflexivity|]. unfold check_runnable. cbn. now rewrite Hf.
Qed.

(** The same with a pause of 0.0. *)
Lemma check_runnable_rejects_zero_float :
  exists p1 p2 p3,
    set_parameter spec_verify init_parameters "pause_sec" (VFloat (S754_zero false)) = Ok p1
    /\ set_parameter spec_verify p1 "num_steps_per_cycle" (VInt 5) = Ok p2
    /\ set_parameter spec_verify p2 "num_cycles" (VInt 3) = Ok p3
    /\ check_runnable p3 = Raise (missing "pause_sec").
Proof. do 3 eexists. repeat split; reflexivity. Qed.

(** With the validators of the design document, the three parameters set
    to accepted values and a pause that is not zero, the show is runnable. *)
Lemma check_runnable_after_configuration (pause steps cycles : value) (p1 p2 p3 : params) :
  set_parameter spec_verify init_parameters "pause_sec" pause = Ok p1 ->
  set_parameter spec_verify p1 "num_steps_per_cycle" steps = Ok p2 ->
  set_parameter spec_verify p2 "num_cycles" cycles = Ok p3 ->
  truthy pause = true ->
  check_runnable p3 = Ok tt.
Proof.
  intros H1 H2 H3 Hp. apply check_runnable_ok.
  cbn in H1, H2, H3.
  destruct (spec_not_negative_numeric pause "pause_sec"); [|discriminate].
  injection H1 as <-.
  destruct steps as [| |n| |]; try discriminate.
  cbn in H2. destruct (Z.ltb_spec 0 n); [|discriminate]. injection H2 as <-.
  destruct cycles as [| |c| |]; try discriminate.
  cbn in H3. destruct (Z.ltb_spec 0 c); [|discriminate]. injection H3 as <-.
  cbn. repeat split; [exact Hp | |].
  - destruct (Z.eqb_spec n 0); [lia | reflexivity].
  - destruct (Z.eqb_spec c 0); [lia | reflexivity].
Qed.

(** C1: [check_runnable] is to succeed once the three parameters are set
    to values that the validators accept, a pause of 0 among them.  It does
    not: with [pause_sec] set to 0, which [set_parameter] takes, and the
    two counts set to 5 and 3, [check_runnable] raises the error for a
    missing [pause_sec]. *)
Theorem check_runnable_rejects_zero_pause :
  exists p1 p2 p3,
    set_parameter spec_verify init_parameters "pause_sec" (VInt 0) = Ok p1
    /\ set_parameter spec_verify p1 "num_steps_per_cycle" (VInt 5) = Ok p2
    /\ set_parameter spec_verify p2 "num_cycles" (VInt 3) = Ok p3
    /\ pause_sec p3 = VInt 0
    /\ check_runnable p3 = Raise (missing "pause_sec")
    /\ missing "pause_sec"
       = InvalidParameters (String.concat "" ["Missing parameter "; dq; "pause_sec"; dq; "!"]).
Proof. do 3 eexists. repeat split; reflexivity. Qed.

End ConfigurationFacts.

(** ** The life cycle of a colour cycle *)

Section LifeCycle.
Import Py ColorCycle.
Local Open Scope py_scope.

Lemma updates_app (a b : trace) : updates (a ++ b) = updates a ++ updates b.
Proof.
  induction a as [|c a IH]; simpl; [reflexivity|].
  destruct c; simpl; congruence.
Qed.

Lemma cleanups_app (a b : trace) : cleanups (a ++ b) = (cleanups a + cleanups b)%nat.
Proof. unfold cleanups. now rewrite filter_app, length_app. Qed.

Lemma loop_calls_no_cleanup (tr : trace) :
  Forall loop_call tr ->
  cleanups tr = 0%nat /\ ~ In Shutdown tr /\ ~ In Strip_clear tr /\ ~ In Strip_release tr.
Proof.
  intros H. rewrite Forall_forall in H. repeat split.
  - unfold cleanups. induction tr as [|c tr IH]; [reflexivity|].
    simpl. pose proof (H c (or_introl eq_refl)) as Hc.
    destruct c; simpl in *; try contradiction; apply IH; intros x Hx; apply H; now right.
  - intros Hin. exact (H _ Hin).
  - intros Hin. exact (H _ Hin).
  - intros Hin. exact (H _ Hin).
Qed.

Lemma returned_app (env : world) (tr e1 e2 : trace) :
  returned env tr e1 -> returned env (tr ++ e1) e2 -> returned env tr (e1 ++ e2).
Proof.
  revert tr. induction e1 as [|c e1 IH]; intros tr H1 H2; simpl in *.
  - now rewrite app_nil_r in H2.
  - destruct H1 as [Hc H1]. split; [exact Hc|].
    apply IH; [exact H1|]. now rewrite <- app_assoc.
Qed.

Section World.
Variable env : world.
Variable self : params.

Lemma loop_part_ret {A : Type} (a : A) : loop_part env (ret a).
Proof.
  intros tr. exists []. simpl. rewrite app_nil_r. repeat split; auto.
Qed.

Lemma loop_part_lift {A : Type} (r : result A) : loop_part env (lift r).
Proof.
  intros tr. exists []. simpl. rewrite app_nil_r. repeat split; auto.
Qed.

Lemma loop_part_do (c : call) : loop_call c -> loop_part env (do env c).
Proof.
  intros Hc tr. exists [c]. unfold do.
  destruct (env tr c) as [v|e] eqn:E; simpl; repeat split; auto.
  - eauto.
  - discriminate.
Qed.

Lemma loop_part_bind {A B : Type} (c : M trace A) (k : A -> M trace B) :
  loop_part env c -> (forall a, loop_part env (k a)) -> loop_part env (mbind c k).
Proof.
  intros Hc Hk tr. unfold mbind.
  destruct (Hc tr) as (e1 & Htr & Hcalls & Hret).
  destruct (c tr) as [[a|e] tr1]; simpl in *; subst tr1.
  - destruct (Hk a (tr ++ e1)) as (e2 & Htr2 & Hcalls2 & Hret2).
    exists (e1 ++ e2). rewrite app_assoc. repeat split.
    + exact Htr2.
    + apply Forall_app. now split.
    + intros b Hb. apply returned_app; [now apply (Hret a) | now apply (Hret2 b)].
  - exists e1. repeat split; auto. discriminate.
Qed.

Lemma loop_part_for_each {X : Type} (xs : list X) (body : X -> M trace unit) :
  (forall x, loop_part env (body x)) -> loop_part env (for_each xs body).
Proof.
  intros Hbody. induction xs as [|x xs IH]; simpl.
  - apply loop_part_ret.
  - apply loop_part_bind; auto.
Qed.

Lemma only_cancelled_ret {A : Type} (a : A) : only_cancelled (ret (S := trace) a).
Proof. intros tr e. discriminate. Qed.

Lemma only_cancelled_bind {A B : Type} (c : M trace A) (k : A -> M trace B) :
  only_cancelled c -> (forall a, only_cancelled (k a)) -> only_cancelled (mbind c k).
Proof.
  intros Hc Hk tr e. unfold mbind.
  specialize (Hc tr). destruct (c tr) as [[a|e1] tr1]; simpl in *.
  - apply Hk.
  - intros [= <-]. now apply Hc.
Qed.

Lemma only_cancelled_for_each {X : Type} (xs : list X) (body : X -> M trace unit) :
  (forall x, only_cancelled (body x)) -> only_cancelled (for_each xs body).
Proof.
  intros Hbody. induction xs as [|x xs IH]; simpl.
  - apply only_cancelled_ret.
  - apply only_cancelled_bind; auto.
Qed.

Lemma loop_part_body (cy st : Z) :
  loop_part env
    (needRepaint <- do env (Update st cy) ;;
     (if truthy needRepaint then do env Strip_show ;; ret tt else ret tt) ;;
     do env (Sleep (pause_sec self)) ;;
     ret tt).
Proof.
  apply loop_part_bind; [now apply loop_part_do|]. intros v.
  apply loop_part_bind.
  - destruct (truthy v); [|apply loop_part_ret].
    apply loop_part_bind; [now apply loop_part_do | intros; apply loop_part_ret].
  - intros _. apply loop_part_bind; [now apply loop_part_do | intros; apply loop_part_ret].
Qed.

Lemma loop_part_steps (cy : Z) : loop_part env (steps env self cy).
Proof.
  unfold steps. apply loop_part_bind; [apply loop_part_lift|]. intros rng.
  apply loop_part_for_each. intros st. apply loop_part_body.
Qed.

Lemma loop_part_while_true (fuel : nat) (cy : Z) : loop_part env (while_true env self fuel cy).
Proof.
  revert cy. induction fuel as [|fuel IH]; intros cy; simpl.
  - apply loop_part_ret.
  - apply loop_part_bind; [apply loop_part_steps|]. intros _.
    apply loop_part_bind.
    + destruct (ne_int (num_cycles self) (-1)); [apply loop_part_lift | apply loop_part_ret].
    + intros [|]; [apply loop_part_ret | apply IH].
Qed.

Section Cancellation.
Hypothesis only_interrupts : forall tr c e, env tr c = Raises e -> e = KeyboardInterrupt.
Variables n cycles : Z.
Hypothesis steps_set : num_steps_per_cycle self = VInt n.
Hypothesis cycles_set : num_cycles self = VInt cycles.

Lemma only_cancelled_do (c : call) : only_cancelled (do env c).
Proof.
  intros tr e. unfold do. destruct (env tr c) as [v|e1] eqn:E; simpl.
  - discriminate.
  - intros [= <-]. eapply only_interrupts. exact E.
Qed.

Lemma only_cancelled_steps (cy : Z) : only_cancelled (steps env self cy).
Proof.
  unfold steps. rewrite steps_set. simpl.
  apply only_cancelled_bind; [intros tr e; discriminate|]. intros rng.
  apply only_cancelled_for_each. intros st.
  apply only_cancelled_bind; [apply only_cancelled_do|]. intros v.
  apply only_cancelled_bind.
  - destruct (truthy v); [|apply only_cancelled_ret].
    apply only_cancelled_bind; [apply only_cancelled_do | intros; apply only_cancelled_ret].
  - intros _.
    apply only_cancelled_bind; [apply only_cancelled_do | intros; apply only_cancelled_ret].
Qed.

Lemma only_cancelled_while_true (fuel : nat) (cy : Z) :
  only_cancelled (while_true env self fuel cy).
Proof.
  revert cy. induction fuel as [|fuel IH]; intros cy; simpl.
  - apply only_cancelled_ret.
  - apply only_cancelled_bind; [apply only_cancelled_steps|]. intros _.
    apply only_cancelled_bind.
    + rewrite cycles_set. simpl.
      destruct (negb (cycles =? -1)); [intros tr e; discriminate | apply only_cancelled_ret].
    + intros [|]; [apply only_cancelled_ret | apply IH].
Qed.

(** With a number of cycles, the loop is left when they are done. *)
Lemma while_true_ends (fuel : nat) (cy : Z) (tr : trace) :
  cycles <> -1 ->
  (1 <= fuel)%nat ->
  cycles - cy <= Z.of_nat fuel ->
  fst (while_true env self fuel cy tr) <> Ok false.
Proof.
  intros Hc. revert cy tr. induction fuel as [|fuel IH]; intros cy tr H1 Hf; [lia|].
  simpl. unfold mbind at 1.
  destruct (steps env self cy tr) as [[u|e] tr1]; [|discriminate].
  rewrite cycles_set. simpl.
  destruct (Z.eqb_spec cycles (-1)) as [|_]; [contradiction|]. simpl.
  unfold mbind, lift.
  destruct (Z.leb_spec cycles (cy + 1)) as [Hle|Hgt]; [discriminate|].
  apply IH; lia.
Qed.

End Cancellation.

(** [cleanup], when nothing disturbs it, makes its four calls and returns. *)
Lemma cleanup_runs (tr : trace) :
  (forall tr c, c = Shutdown \/ In Shutdown tr -> exists v, env tr c = Returns v) ->
  cleanup env tr = (Ok tt, tr ++ cleanup_calls).
Proof.
  intros Hq.
  assert (Hin : forall rest, In Shutdown ((tr ++ [Shutdown]) ++ rest)).
  { intros rest. apply in_or_app. left. apply in_or_app. right. now left. }
  unfold cleanup, strip_clearStrip, strip_cleanup, mbind, do, ret.
  destruct (Hq tr Shutdown (or_introl eq_refl)) as [v1 ->].
  destruct (Hq (tr ++ [Shutdown]) Strip_clear) as [v2 ->].
  { right. rewrite <- (app_nil_r (tr ++ [Shutdown])). apply Hin. }
  destruct (Hq ((tr ++ [Shutdown]) ++ [Strip_clear]) Strip_show) as [v3 ->].
  { right. apply Hin. }
  destruct (Hq (((tr ++ [Shutdown]) ++ [Strip_clear]) ++ [Strip_show]) Strip_release)
    as [v4 ->].
  { right. rewrite <- app_assoc. apply Hin. }
  rewrite <- !app_assoc. reflexivity.
Qed.

Lemma run_eq (fuel : nat) (tr : trace) :
  run env self fuel tr =
  match front env self fuel tr with
  | (Ok true, tr1) =>
      match cleanup env tr1 with
      | (Ok _, tr2) => (Ok true, tr2)
      | (Raise KeyboardInterrupt, tr2) => (cleanup env ;; ret true) tr2
      | (Raise e, tr2) => (Raise e, tr2)
      end
  | (Ok false, tr1) => (Ok false, tr1)
  | (Raise KeyboardInterrupt, tr1) => (cleanup env ;; ret true) tr1
  | (Raise e, tr1) => (Raise e, tr1)
  end.
Proof.
  unfold run, front, try_except_KeyboardInterrupt.
  set (handler := cleanup env ;; ret true).
  unfold mbind.
  destruct (do env Init tr) as [[v1|e1] tr1]; [|destruct e1; reflexivity].
  destruct (do env Strip_show tr1) as [[v2|e2] tr2]; [|destruct e2; reflexivity].
  destruct (while_true env self fuel 0 tr2) as [[[|]|e3] tr3];
    [|reflexivity|destruct e3; reflexivity].
  assert (Hh : handler tr3 =
               match cleanup env tr3 with
               | (Ok _, tr4) => (Ok true, tr4)
               | (Raise e, tr4) => (Raise e, tr4)
               end) by reflexivity.
  rewrite Hh.
  destruct (cleanup env tr3) as [[u|e4] tr4]; [reflexivity | destruct e4; reflexivity].
Qed.

Lemma loop_part_front (fuel : nat) : loop_part env (front env self fuel).
Proof.
  unfold front.
  apply loop_part_bind; [now apply loop_part_do|]. intros _.
  apply loop_part_bind; [now apply loop_part_do|]. intros _.
  apply loop_part_while_true.
Qed.

Lemma front_still_going (fuel : nat) (tr : trace) :
  fst (front env self fuel tr) = Ok false ->
  exists tr2, fst (while_true env self fuel 0 tr2) = Ok false.
Proof.
  unfold front, mbind.
  destruct (do env Init tr) as [[v1|e1] tr1]; [|discriminate].
  destruct (do env Strip_show tr1) as [[v2|e2] tr2]; [|discriminate].
  intros H. now exists tr2.
Qed.

Lemma run_with_cancellation (n cycles : Z) (fuel : nat) (r : result bool) (tr : trace) :
  (forall tr c e, env tr c = Raises e -> e = KeyboardInterrupt) ->
  (forall tr c, c = Shutdown \/ In Shutdown tr -> exists v, env tr c = Returns v) ->
  num_steps_per_cycle self = VInt n ->
  num_cycles self = VInt cycles ->
  run env self fuel [] = (r, tr) ->
  (cycles <> -1 -> Z.max 1 cycles <= Z.of_nat fuel -> r = Ok true)
  /\ ((r = Ok true
       /\ exists pre,
           tr = pre ++ cleanup_calls /\ Forall loop_call pre)
      \/ (r = Ok false /\ Forall loop_call tr /\ returned env [] tr)).
Proof.
  intros Honly Hquiet Hsteps Hcycles. rewrite run_eq.
  destruct (loop_part_front fuel []) as (ext & Htr & Hcalls & Hret).
  pose proof (front_still_going fuel []) as Hgoing.
  assert (Hcancel : only_cancelled (front env self fuel)).
  { unfold front.
    apply only_cancelled_bind; [now apply only_cancelled_do|]. intros _.
    apply only_cancelled_bind; [now apply only_cancelled_do|]. intros _.
    now apply (only_cancelled_while_true Honly n cycles). }
  specialize (Hcancel []).
  destruct (front env self fuel []) as [[[|]|e] tr1]; simpl in *; subst tr1.
  - rewrite (cleanup_runs ext Hquiet). intros [= <- <-]. split; [reflexivity|].
    left. split; [reflexivity|]. now exists ext.
  - intros [= <- <-]. split.
    + intros Hc Hf. exfalso.
      destruct (Hgoing eq_refl) as [tr2 H2]. revert H2.
      apply (while_true_ends cycles Hcycles); lia.
    + right. split; [reflexivity|]. split; [exact Hcalls|]. now apply (Hret false).
  - rewrite (Hcancel e eq_refl). unfold mbind.
    rewrite (cleanup_runs ext Hquiet). intros [= <- <-]. split; [reflexivity|].
    left. split; [reflexivity|]. now exists ext.
Qed.

End World.

Lemma raises_app (env : world) (tr a b : trace) (e : exn) :
  raises env tr (a ++ b) e <-> raises env tr a e \/ raises env (tr ++ a) b e.
Proof.
  revert tr. induction a as [|c a IH]; intros tr.
  - cbn. rewrite app_nil_r. tauto.
  - cbn [app raises]. rewrite IH, <- app_assoc. cbn [app]. tauto.
Qed.

Lemma returned_no_raise (env : world) (tr ext : trace) (e : exn) :
  returned env tr ext -> ~ raises env tr ext e.
Proof.
  revert tr. induction ext as [|c ext IH]; intros tr Hret Hr; [exact Hr|].
  cbn in Hret, Hr. destruct Hret as [[v Hv] Hret]. destruct Hr as [Hr|Hr].
  - congruence.
  - exact (IH _ Hret Hr).
Qed.

Lemma raised_last_raises (env : world) (tr ext : trace) (e : exn) :
  raised_last env tr ext e -> raises env tr ext e.
Proof.
  intros (pre & c & -> & _ & Hc). apply raises_app. right. cbn. now left.
Qed.

Lemma raised_last_only (env : world) (tr ext : trace) (e e' : exn) :
  raised_last env tr ext e -> raises env tr ext e' -> e' = e.
Proof.
  intros (pre & c & -> & Hret & Hc) Hr. apply raises_app in Hr.
  destruct Hr as [Hr|Hr].
  - exfalso. exact (returned_no_raise env tr pre e' Hret Hr).
  - cbn in Hr. destruct Hr as [Hr|[]]. congruence.
Qed.

Lemma raised_last_app (env : world) (tr e1 e2 : trace) (e : exn) :
  returned env tr e1 -> raised_last env (tr ++ e1) e2 e -> raised_last env tr (e1 ++ e2) e.
Proof.
  intros H1 (pre & c & -> & Hret & Hc).
  exists (e1 ++ pre), c. split; [now rewrite app_assoc|]. split.
  - now apply returned_app.
  - now rewrite app_assoc.
Qed.

Lemma loop_outcome_ret {A : Type} (env : world) (a : A) : loop_outcome env (ret a).
Proof.
  intros tr. exists []. cbn. rewrite app_nil_r. auto.
Qed.

Lemma loop_outcome_do (env : world) (c : call) : loop_call c -> loop_outcome env (do env c).
Proof.
  intros Hc tr. exists [c]. unfold do.
  destruct (env tr c) as [v|e] eqn:E; cbn; repeat split; eauto.
  exists [], c. cbn. rewrite app_nil_r. auto.
Qed.

Lemma loop_outcome_bind {A B : Type} (env : world) (c : M trace A) (k : A -> M trace B) :
  loop_outcome env c -> (forall a, loop_outcome env (k a)) -> loop_outcome env (mbind c k).
Proof.
  intros Hc Hk tr. unfold mbind.
  destruct (Hc tr) as (e1 & Htr & Hcalls & Hout).
  destruct (c tr) as [[a|e] tr1]; cbn in *; subst tr1.
  - destruct (Hk a (tr ++ e1)) as (e2 & Htr2 & Hcalls2 & Hout2).
    exists (e1 ++ e2). rewrite app_assoc. split; [exact Htr2|].
    split; [apply Forall_app; now split|].
    destruct (fst (k a (tr ++ e1))).
    + now apply returned_app.
    + now apply raised_last_app.
  - exists e1. auto.
Qed.

Lemma loop_outcome_for_each {X : Type} (env : world) (xs : list X)
    (body : X -> M trace unit) :
  (forall x, loop_outcome env (body x)) -> loop_outcome env (for_each xs body).
Proof.
  intros Hbody. induction xs as [|x xs IH]; cbn [for_each].
  - apply loop_outcome_ret.
  - apply loop_outcome_bind; auto.
Qed.

Lemma loop_outcome_steps (env : world) (self : params) (n cy : Z) :
  num_steps_per_cycle self = VInt n -> loop_outcome env (steps env self cy).
Proof.
  intros Hsteps. unfold steps. rewrite Hsteps. cbn [range_of].
  apply loop_outcome_bind; [apply (loop_outcome_ret env (range n))|]. intros rng.
  apply loop_outcome_for_each. intros st.
  apply loop_outcome_bind; [now apply loop_outcome_do|]. intros v.
  apply loop_outcome_bind.
  - destruct (truthy v); [|apply loop_outcome_ret].
    apply loop_outcome_bind; [now apply loop_outcome_do | intros; apply loop_outcome_ret].
  - intros _.
    apply loop_outcome_bind; [now apply loop_outcome_do | intros; apply loop_outcome_ret].
Qed.

Lemma loop_outcome_while_true (env : world) (self : params) (n cycles : Z)
    (fuel : nat) (cy : Z) :
  num_steps_per_cycle self = VInt n ->
  num_cycles self = VInt cycles ->
  loop_outcome env (while_true env self fuel cy).
Proof.
  intros Hsteps Hcycles. revert cy. induction fuel as [|fuel IH]; intros cy; cbn [while_true].
  - apply loop_outcome_ret.
  - apply loop_outcome_bind; [now apply (loop_outcome_steps env self n)|]. intros _.
    apply loop_outcome_bind.
    + rewrite Hcycles. cbn [ne_int int_ge].
      destruct (negb (cycles =? -1));
        [apply (loop_outcome_ret env (cycles <=? cy + 1)) | apply loop_outcome_ret].
    + intros [|]; [apply loop_outcome_ret | apply IH].
Qed.

Lemma loop_outcome_front (env : world) (self : params) (n cycles : Z) (fuel : nat) :
  num_steps_per_cycle self = VInt n ->
  num_cycles self = VInt cycles ->
  loop_outcome env (front env self fuel).
Proof.
  intros Hsteps Hcycles. unfold front.
  apply loop_outcome_bind; [now apply loop_outcome_do|]. intros _.
  apply loop_outcome_bind; [now apply loop_outcome_do|]. intros _.
  now apply (loop_outcome_while_true env self n cycles).
Qed.

Lemma cleanup_returned (env : world) (tr : trace) :
  (forall tr c, c = Shutdown \/ In Shutdown tr -> exists v, env tr c = Returns v) ->
  returned env tr cleanup_calls.
Proof.
  intros Hq.
  assert (Hin : forall rest, In Shutdown ((tr ++ [Shutdown]) ++ rest)).
  { intros rest. apply in_or_app. left. apply in_or_app. right. now left. }
  cbn. repeat split.
  - apply Hq. now left.
  - apply Hq. right. rewrite <- (app_nil_r (tr ++ [Shutdown])). apply Hin.
  - apply Hq. right. apply Hin.
  - apply Hq. right. rewrite <- app_assoc. apply Hin.
Qed.

Lemma cleaned_up_once_after (pre : trace) :
  Forall loop_call pre -> cleaned_up_once (pre ++ cleanup_calls).
Proof.
  intros Hpre. destruct (loop_calls_no_cleanup pre Hpre) as (H0 & H1 & H2 & H3).
  split.
  - rewrite cleanups_app, H0. reflexivity.
  - exists pre. auto.
Qed.

(** C2, as the code has it.  Take a [run] with integer counts in which
    every call returns once the shutdown hook is called.  It ends in one of
    three ways.  It returns after exactly one [cleanup], whose calls (the
    shutdown hook, the clearing of the buffer, a transmission, the release
    of the transport) end the trace in this order: this is what happens
    when every call returned, its cycles done, and what happens when a
    [KeyboardInterrupt] was raised by any call before.  Or it has not
    returned: then no call has raised and no cleanup is begun; with a number
    of cycles this does not last.  Or another error was raised by [init],
    [update], the pause or a transmission: then this error leaves [run] and
    no [cleanup] runs, no shutdown hook, no clearing and no release. *)
Theorem run_cleans_up_once
    (env : world) (self : params) (n cycles : Z) (fuel : nat)
    (r : result bool) (tr : trace) :
  (forall tr c, c = Shutdown \/ In Shutdown tr -> exists v, env tr c = Returns v) ->
  num_steps_per_cycle self = VInt n ->
  num_cycles self = VInt cycles ->
  run env self fuel [] = (r, tr) ->
  ((r = Ok true /\ cleaned_up_once tr
    /\ (returned env [] tr \/ raises env [] tr KeyboardInterrupt))
   \/ (r = Ok false /\ no_cleanup tr /\ returned env [] tr)
   \/ (exists e, r = Raise e /\ e <> KeyboardInterrupt /\ no_cleanup tr
                 /\ raises env [] tr e))
  /\ (cycles <> -1 -> Z.max 1 cycles <= Z.of_nat fuel -> r <> Ok false)
  /\ (raises env [] tr KeyboardInterrupt -> r = Ok true /\ cleaned_up_once tr)
  /\ (forall e, e <> KeyboardInterrupt -> raises env [] tr e ->
                r = Raise e /\ no_cleanup tr).
Proof.
  intros Hquiet Hsteps Hcycles. rewrite run_eq.
  destruct (loop_outcome_front env self n cycles fuel Hsteps Hcycles [])
    as (ext & Htr & Hcalls & Hout).
  pose proof (front_still_going env self fuel []) as Hgoing.
  pose proof (cleanup_returned env ext Hquiet) as Hclean.
  pose proof (loop_calls_no_cleanup ext Hcalls) as Hnone.
  destruct (front env self fuel []) as [[[|]|e] tr1]; cbn in Htr, Hout; subst tr1.
  - rewrite (cleanup_runs env ext Hquiet). intros [= <- <-].
    assert (Hall : returned env [] (ext ++ cleanup_calls)) by now apply returned_app.
    split; [|split; [|split]].
    + left. split; [reflexivity|]. split; [now apply cleaned_up_once_after | now left].
    + discriminate.
    + intros _. split; [reflexivity | now apply cleaned_up_once_after].
    + intros e _ Hr. exfalso. exact (returned_no_raise _ _ _ _ Hall Hr).
  - intros [= <- <-]. split; [|split; [|split]].
    + right. left. auto.
    + intros Hc Hf Hfalse.
      destruct (Hgoing eq_refl) as [tr2 H2]. revert H2.
      apply (while_true_ends env self cycles Hcycles); lia.
    + intros Hr. exfalso. exact (returned_no_raise _ _ _ _ Hout Hr).
    + intros e _ Hr. exfalso. exact (returned_no_raise _ _ _ _ Hout Hr).
  - assert (Hdec : e = KeyboardInterrupt \/ e <> KeyboardInterrupt)
      by (destruct e; (left; reflexivity) || (right; discriminate)).
    destruct Hdec as [-> | Hne].
    + unfold mbind. rewrite (cleanup_runs env ext Hquiet). intros [= <- <-].
      assert (Hki : raises env [] (ext ++ cleanup_calls) KeyboardInterrupt).
      { apply raises_app. left. now apply raised_last_raises. }
      split; [|split; [|split]].
      * left. split; [reflexivity|]. split; [now apply cleaned_up_once_after | now right].
      * discriminate.
      * intros _. split; [reflexivity | now apply cleaned_up_once_after].
      * intros e Hne Hr. exfalso. apply raises_app in Hr. destruct Hr as [Hr|Hr].
        -- apply Hne. exact (raised_last_only _ _ _ _ _ Hout Hr).
        -- exact (returned_no_raise _ _ _ _ Hclean Hr).
    + intros Hrun.
      assert (Hr : r = Raise e /\ tr = ext)
        by (destruct e; try contradiction; injection Hrun as <- <-; auto).
      destruct Hr as [-> ->]. clear Hrun.
      split; [|split; [|split]].
      * right. right. exists e. repeat split; try apply Hnone; auto.
        now apply raised_last_raises.
      * discriminate.
      * intros Hr. exfalso. apply Hne. symmetry.
        exact (raised_last_only _ _ _ _ _ Hout Hr).
      * intros e' _ Hr. rewrite (raised_last_only _ _ _ _ _ Hout Hr).
        split; [reflexivity|]. exact Hnone.
Qed.

Lemma cancelled_at_only_interrupts (k : nat) (tr : trace) (c : call) (e : exn) :
  cancelled_at k tr c = Raises e -> e = KeyboardInterrupt.
Proof.
  unfold cancelled_at.
  destruct (existsb is_shutdown (tr ++ [c])); [discriminate|].
  destruct (Nat.eqb (length tr) k); [|discriminate].
  now intros [= <-].
Qed.

Lemma cancelled_at_cleanup (k : nat) (tr : trace) (c : call) :
  c = Shutdown \/ In Shutdown tr -> exists v, cancelled_at k tr c = Returns v.
Proof.
  intros H. unfold cancelled_at.
  assert (E : existsb is_shutdown (tr ++ [c]) = true).
  { apply existsb_exists. exists Shutdown. split; [|reflexivity].
    apply in_or_app. destruct H as [-> | H]; [right; now left | now left]. }
  rewrite E. eauto.
Qed.

Lemma run_cleans_up_once_witness :
  (forall tr c, c = Shutdown \/ In Shutdown tr ->
                exists v, cancelled_at 7 tr c = Returns v)
  /\ num_steps_per_cycle for_ever = VInt 1
  /\ num_cycles for_ever = VInt (-1)
  /\ run (cancelled_at 7) for_ever 10 [] = (Ok true, cancelled_calls)
  /\ ((Ok true = Ok true /\ cleaned_up_once cancelled_calls
       /\ (returned (cancelled_at 7) [] cancelled_calls
           \/ raises (cancelled_at 7) [] cancelled_calls KeyboardInterrupt))
      \/ (Ok true = Ok false /\ no_cleanup cancelled_calls
          /\ returned (cancelled_at 7) [] cancelled_calls)
      \/ (exists e, Ok true = Raise e /\ e <> KeyboardInterrupt
                    /\ no_cleanup cancelled_calls
                    /\ raises (cancelled_at 7) [] cancelled_calls e))
  /\ (-1 <> -1 -> Z.max 1 (-1) <= Z.of_nat 10 -> Ok true <> Ok false)
  /\ (raises (cancelled_at 7) [] cancelled_calls KeyboardInterrupt ->
      Ok true = Ok true /\ cleaned_up_once cancelled_calls)
  /\ (forall e, e <> KeyboardInterrupt ->
                raises (cancelled_at 7) [] cancelled_calls e ->
                Ok true = Raise e /\ no_cleanup cancelled_calls).
Proof.
  split; [exact (cancelled_at_cleanup 7)|].
  split; [reflexivity|]. split; [reflexivity|]. split; [reflexivity|].
  apply (run_cleans_up_once (cancelled_at 7) for_ever 1 (-1) 10).
  - exact (cancelled_at_cleanup 7).
  - reflexivity.
  - reflexivity.
  - reflexivity.
Defined.

(** C2, as it is stated, fails: an error that leaves [update], or the
    transmission in [show], leaves [run] too, and no [cleanup] runs. *)
Lemma run_error_skips_cleanup :
  run update_fails five_by_three 3 []
  = (Raise (OtherError "update failed"), [Init; Strip_show; Update 0 0])
  /\ cleanups [Init; Strip_show; Update 0 0] = 0%nat
  /\ run show_fails five_by_three 3 []
     = (Raise (OtherError "transport failed"), [Init; Strip_show])
  /\ cleanups [Init; Strip_show] = 0%nat
  /\ ~ Spec.cleanup_on_every_exit.
Proof.
  repeat split.
  intros claim.
  specialize (claim update_fails five_by_three 3%nat _ _ eq_refl).
  cbn in claim. discriminate claim. discriminate.
Qed.

Section Uncancelled.
Variable env : world.
Variable self : params.
Hypothesis all_return : forall tr c, exists v, env tr c = Returns v.

Lemma step_returns (cy st : Z) (tr : trace) :
  exists ext,
    (needRepaint <- do env (Update st cy) ;;
     (if truthy needRepaint then do env Strip_show ;; ret tt else ret tt) ;;
     do env (Sleep (pause_sec self)) ;;
     ret tt) tr = (Ok tt, tr ++ ext)
    /\ Forall loop_call ext
    /\ updates ext = [(st, cy)].
Proof.
  unfold mbind, do, ret.
  destruct (all_return tr (Update st cy)) as [v ->].
  destruct (truthy v).
  - destruct (all_return (tr ++ [Update st cy]) Strip_show) as [v2 ->].
    destruct (all_return ((tr ++ [Update st cy]) ++ [Strip_show]) (Sleep (pause_sec self)))
      as [v3 ->].
    exists [Update st cy; Strip_show; Sleep (pause_sec self)].
    rewrite <- !app_assoc. repeat split. repeat constructor.
  - destruct (all_return (tr ++ [Update st cy]) (Sleep (pause_sec self))) as [v3 ->].
    exists [Update st cy; Sleep (pause_sec self)].
    rewrite <- !app_assoc. repeat split. repeat constructor.
Qed.

Lemma for_each_returns (cy : Z) (xs : list Z) (tr : trace) :
  exists ext,
    for_each xs (fun currentStep =>
      needRepaint <- do env (Update currentStep cy) ;;
      (if truthy needRepaint then do env Strip_show ;; ret tt else ret tt) ;;
      do env (Sleep (pause_sec self)) ;;
      ret tt) tr = (Ok tt, tr ++ ext)
    /\ Forall loop_call ext
    /\ updates ext = map (fun st => (st, cy)) xs.
Proof.
  revert tr. induction xs as [|st xs IH]; intros tr.
  - exists []. simpl. rewrite app_nil_r. repeat split. constructor.
  - cbn [for_each]. unfold mbind at 1.
    destruct (step_returns cy st tr) as (e1 & -> & Hc1 & Hu1).
    destruct (IH (tr ++ e1)) as (e2 & -> & Hc2 & Hu2).
    exists (e1 ++ e2). rewrite app_assoc. repeat split.
    + apply Forall_app. now split.
    + rewrite updates_app, Hu1, Hu2. reflexivity.
Qed.

Variables n cycles : Z.
Hypothesis steps_set : num_steps_per_cycle self = VInt n.
Hypothesis cycles_set : num_cycles self = VInt cycles.

Lemma steps_returns (cy : Z) (tr : trace) :
  exists ext,
    steps env self cy tr = (Ok tt, tr ++ ext)
    /\ Forall loop_call ext
    /\ updates ext = cycle_updates n cy.
Proof.
  unfold steps. rewrite steps_set. cbn [range_of]. unfold mbind at 1, lift.
  apply for_each_returns.
Qed.

Lemma while_true_returns (k : nat) :
  forall (fuel : nat) (cy : Z) (tr : trace),
    0 <= cy ->
    (1 <= k)%nat ->
    (k <= fuel)%nat ->
    cycles = cy + Z.of_nat k ->
    exists ext,
      while_true env self fuel cy tr = (Ok true, tr ++ ext)
      /\ Forall loop_call ext
      /\ updates ext = cycles_updates n k cy.
Proof.
  induction k as [|k IH]; intros fuel cy tr Hpos Hk Hfuel Hcy; [lia|].
  destruct fuel as [|fuel]; [lia|].
  cbn [while_true cycles_updates]. unfold mbind at 1.
  destruct (steps_returns cy tr) as (e1 & -> & Hc1 & Hu1).
  rewrite cycles_set. cbn [ne_int int_ge].
  destruct (Z.eqb_spec cycles (-1)) as [Hm|_]; [lia|]. cbn [negb].
  unfold mbind at 1, lift.
  destruct (Z.leb_spec cycles (cy + 1)) as [Hle|Hgt].
  - assert (k = 0%nat) by lia. subst k.
    exists e1. cbn [cycles_updates]. rewrite app_nil_r. unfold ret. auto.
  - destruct (IH fuel (cy + 1) (tr ++ e1)) as (e2 & -> & Hc2 & Hu2); try lia.
    exists (e1 ++ e2). rewrite app_assoc. repeat split.
    + apply Forall_app. now split.
    + rewrite updates_app, Hu1, Hu2. reflexivity.
Qed.

Lemma run_returns (fuel : nat) :
  1 <= cycles ->
  cycles <= Z.of_nat fuel ->
  exists pre,
    run env self fuel [] = (Ok true, pre ++ cleanup_calls)
    /\ Forall loop_call pre
    /\ updates pre = cycles_updates n (Z.to_nat cycles) 0.
Proof.
  intros H1 Hf. rewrite run_eq. unfold front, mbind, do.
  destruct (all_return [] Init) as [v1 ->].
  destruct (all_return ([] ++ [Init]) Strip_show) as [v2 ->].
  destruct (while_true_returns (Z.to_nat cycles) fuel 0 (([] ++ [Init]) ++ [Strip_show]))
    as (ext & -> & Hc & Hu); try lia.
  rewrite cleanup_runs by (intros; apply all_return).
  exists ([Init; Strip_show] ++ ext). repeat split.
  - apply Forall_app. split; [repeat constructor | exact Hc].
  - rewrite updates_app. exact Hu.
Qed.

End Uncancelled.

(** C3: with five steps in a cycle and three cycles, a [run] in which
    every call returns (no cancellation, no error) calls [update] exactly
    15 times, with the steps and cycles (0,0), (1,0), (2,0), (3,0), (4,0),
    (0,1), ..., (4,1), (0,2), ..., (4,2) in this order, and then, after the
    15th call, runs [cleanup] exactly once and returns. *)
Theorem five_steps_three_cycles (env : world) (self : params) (fuel : nat) :
  (forall tr c, exists v, env tr c = Returns v) ->
  num_steps_per_cycle self = VInt 5 ->
  num_cycles self = VInt 3 ->
  (3 <= fuel)%nat ->
  exists pre,
    run env self fuel [] = (Ok true, pre ++ cleanup_calls)
    /\ updates pre
       = [(0, 0); (1, 0); (2, 0); (3, 0); (4, 0);
          (0, 1); (1, 1); (2, 1); (3, 1); (4, 1);
          (0, 2); (1, 2); (2, 2); (3, 2); (4, 2)]
    /\ length (updates (pre ++ cleanup_calls)) = 15%nat
    /\ cleanups pre = 0%nat
    /\ cleanups (pre ++ cleanup_calls) = 1%nat.
Proof.
  intros Hall Hsteps Hcycles Hfuel.
  destruct (run_returns env self Hall 5 3 Hsteps Hcycles fuel) as (pre & Hrun & Hc & Hu);
    try lia.
  exists pre. split; [exact Hrun|].
  destruct (loop_calls_no_cleanup pre Hc) as (H0 & _).
  split; [exact Hu|]. split; [rewrite updates_app, Hu; reflexivity|].
  split; [exact H0|]. rewrite cleanups_app, H0. reflexivity.
Qed.

Lemma five_steps_three_cycles_witness :
  (forall tr c, exists v, quiet tr c = Returns v)
  /\ num_steps_per_cycle five_by_three = VInt 5
  /\ num_cycles five_by_three = VInt 3
  /\ (3 <= 4)%nat
  /\ exists pre,
      run quiet five_by_three 4 [] = (Ok true, pre ++ cleanup_calls)
      /\ updates pre
         = [(0, 0); (1, 0); (2, 0); (3, 0); (4, 0);
            (0, 1); (1, 1); (2, 1); (3, 1); (4, 1);
            (0, 2); (1, 2); (2, 2); (3, 2); (4, 2)]
      /\ length (updates (pre ++ cleanup_calls)) = 15%nat
      /\ cleanups pre = 0%nat
      /\ cleanups (pre ++ cleanup_calls) = 1%nat.
Proof.
  split; [intros tr c; exists VNone; reflexivity|].
  split; [reflexivity|]. split; [reflexivity|]. split; [lia|].
  apply (five_steps_three_cycles quiet five_by_three 4).
  - intros tr c. exists VNone. reflexivity.
  - reflexivity.
  - reflexivity.
  - lia.
Defined.

End LifeCycle.

(** ** More on the frame buffer: reading back, and the edges of the indexes *)

Section Pixels.
Import Py APA102.
Local Open Scope py_scope.

Lemma index_of_negative {A : Type} (l : list A) (i : Z) :
  - len l <= i < 0 -> index_of l i = index_of l (len l + i).
Proof.
  intros Hi. unfold index_of.
  destruct (Z.leb_spec 0 i); [lia|]. cbn [andb].
  destruct (Z.leb_spec (- len l) i); [|lia].
  destruct (Z.ltb_spec i 0); [|lia]. cbn [andb].
  destruct (Z.leb_spec 0 (len l + i)); [|lia].
  destruct (Z.ltb_spec (len l + i) (len l)); [|lia]. reflexivity.
Qed.

Lemma index_of_outside {A : Type} (l : list A) (i : Z) :
  len l <= i \/ i < - len l -> index_of l i = Raise IndexError.
Proof.
  intros Hi. unfold index_of.
  destruct (Z.leb_spec 0 i); destruct (Z.ltb_spec i (len l));
    destruct (Z.leb_spec (- len l) i); destruct (Z.ltb_spec i 0);
    cbn [andb]; try reflexivity; lia.
Qed.

Lemma get_pixel_at (s : strip) (i : Z) :
  wf s -> 0 <= i < num_leds s ->
  get_pixel i s =
  (Ok (nth (Z.to_nat (4 * i + 3)) (leds s) 0,
       nth (Z.to_nat (4 * i + 2)) (leds s) 0,
       nth (Z.to_nat (4 * i + 1)) (leds s) 0), s).
Proof.
  intros [Hlen _] Hi. unfold get_pixel, mbind.
  rewrite !leds_getitem_eq, !getitem_in_range by lia. reflexivity.
Qed.

(** X1: on a strip, after [_set_pixel] on an index of the strip,
    [get_pixel] on that index returns the red, green and blue that were
    written, and on every other index of the strip what it returned
    before. *)
Theorem get_pixel_after_set_pixel (s : strip) (i red green blue : Z) :
  wf s ->
  0 <= i < num_leds s ->
  exists s',
    _set_pixel i red green blue s = (Ok tt, s')
    /\ get_pixel i s' = (Ok (red, green, blue), s')
    /\ forall j, 0 <= j < num_leds s -> j <> i ->
                 fst (get_pixel j s') = fst (get_pixel j s).
Proof.
  intros Hwf Hi. eexists. split; [now apply _set_pixel_inside|].
  set (s' := set_leds _ s).
  assert (Hwf' : wf s').
  { destruct Hwf as [Hl Hm]. split; [|exact Hm].
    subst s'. cbn [leds set_leds num_leds]. unfold len in *.
    now rewrite !update_length. }
  assert (Hi' : 0 <= i < num_leds s') by exact Hi.
  pose proof Hwf as [Hlen _]. unfold len in Hlen.
  split.
  - rewrite (get_pixel_at s' i Hwf' Hi').
    subst s'. cbn [leds set_leds]. repeat f_equal.
    + rewrite !nth_update_other by lia.
      apply nth_update_same. lia.
    + rewrite nth_update_other by lia.
      apply nth_update_same. rewrite update_length. lia.
    + apply nth_update_same. rewrite !update_length. lia.
  - intros j Hj Hji.
    rewrite (get_pixel_at s' j Hwf' Hj), (get_pixel_at s j Hwf Hj).
    subst s'. cbn [fst leds set_leds].
    rewrite !nth_update_other by lia. reflexivity.
Qed.

Lemma get_pixel_after_set_pixel_witness :
  wf three_leds
  /\ 0 <= 1 < num_leds three_leds
  /\ exists s',
      _set_pixel 1 10 20 30 three_leds = (Ok tt, s')
      /\ get_pixel 1 s' = (Ok (10, 20, 30), s')
      /\ forall j, 0 <= j < num_leds three_leds -> j <> 1 ->
                   fst (get_pixel j s') = fst (get_pixel j three_leds).
Proof.
  split; [exact three_leds_wf|]. split; [simpl; lia|].
  apply (get_pixel_after_set_pixel three_leds 1 10 20 30);
    [exact three_leds_wf | simpl; lia].
Defined.

Lemma getitem_negative (l : list Z) (j : Z) :
  - len l <= j < 0 -> getitem l j = getitem l (len l + j).
Proof. intros Hj. unfold getitem. now rewrite index_of_negative. Qed.

Lemma setitem_negative (l : list Z) (j v : Z) :
  - len l <= j < 0 -> setitem l j v = setitem l (len l + j) v.
Proof. intros Hj. unfold setitem. now rewrite index_of_negative. Qed.

Lemma getitem_outside (l : list Z) (j : Z) :
  len l <= j \/ j < - len l -> getitem l j = Raise IndexError.
Proof. intros Hj. unfold getitem. now rewrite index_of_outside. Qed.

Lemma setitem_outside (l : list Z) (j v : Z) :
  len l <= j \/ j < - len l -> setitem l j v = Raise IndexError.
Proof. intros Hj. unfold setitem. now rewrite index_of_outside. Qed.

(** X2: [get_pixel] does not check its index.  On a strip, an index
    from [num_leds] on or below [- num_leds] raises [IndexError]; an index
    from [- num_leds] to [-1] counts from the end and reads the pixel
    [num_leds + index]. *)
Theorem get_pixel_index_edges (s : strip) (i : Z) :
  wf s ->
  (num_leds s <= i \/ i < - num_leds s -> get_pixel i s = (Raise IndexError, s))
  /\ (- num_leds s <= i < 0 -> get_pixel i s = get_pixel (num_leds s + i) s).
Proof.
  intros [Hlen _]. split.
  - intros Hi. unfold get_pixel, mbind. rewrite leds_getitem_eq.
    rewrite getitem_outside by lia. reflexivity.
  - intros Hi. unfold get_pixel, mbind. rewrite !leds_getitem_eq.
    rewrite (getitem_negative (leds s) (4 * i + 3)) by lia.
    rewrite (getitem_negative (leds s) (4 * i + 2)) by lia.
    rewrite (getitem_negative (leds s) (4 * i + 1)) by lia.
    rewrite Hlen.
    replace (4 * num_leds s + (4 * i + 3)) with (4 * (num_leds s + i) + 3) by lia.
    replace (4 * num_leds s + (4 * i + 2)) with (4 * (num_leds s + i) + 2) by lia.
    replace (4 * num_leds s + (4 * i + 1)) with (4 * (num_leds s + i) + 1) by lia.
    reflexivity.
Qed.

Lemma get_pixel_index_edges_witness :
  wf three_leds
  /\ (num_leds three_leds <= 3 \/ 3 < - num_leds three_leds ->
      get_pixel 3 three_leds = (Raise IndexError, three_leds))
  /\ (- num_leds three_leds <= -1 < 0 ->
      get_pixel (-1) three_leds = get_pixel (num_leds three_leds + -1) three_leds).
Proof.
  split; [exact three_leds_wf|].
  destruct (get_pixel_index_edges three_leds 3 three_leds_wf) as [Hout _].
  destruct (get_pixel_index_edges three_leds (-1) three_leds_wf) as [_ Hneg].
  split; [exact Hout | exact Hneg].
Defined.

(** X3: [_set_brightness] does not check its index either, unlike
    [_set_pixel].  On a strip and with a brightness that has a prefix, an
    index of the strip gets this prefix as its first byte; an index from
    [num_leds] on or below [- num_leds] raises [IndexError] and changes
    nothing; an index from [- num_leds] to [-1] sets the prefix of the
    pixel [num_leds + index]. *)
Theorem set_brightness_index_edges (s : strip) (i brightness p : Z) :
  wf s ->
  led_prefix brightness = Ok p ->
  (0 <= i < num_leds s ->
   exists s',
     _set_brightness i brightness s = (Ok tt, s')
     /\ getitem (leds s') (4 * i) = Ok p)
  /\ (num_leds s <= i \/ i < - num_leds s ->
      _set_brightness i brightness s = (Raise IndexError, s))
  /\ (- num_leds s <= i < 0 ->
      _set_brightness i brightness s = _set_brightness (num_leds s + i) brightness s).
Proof.
  intros [Hlen _] Hp. rewrite !_set_brightness_eq, Hp, !leds_setitem_eq.
  split; [|split].
  - intros Hi. rewrite setitem_in_range by lia.
    eexists. split; [reflexivity|]. cbn [leds set_leds].
    rewrite getitem_in_range by (unfold len in *; rewrite update_length; lia).
    f_equal. apply nth_update_same. unfold len in Hlen. lia.
  - intros Hi. rewrite setitem_outside by lia. reflexivity.
  - intros Hi. rewrite setitem_negative by lia. rewrite Hlen.
    replace (4 * num_leds s + 4 * i) with (4 * (num_leds s + i)) by lia.
    reflexivity.
Qed.

Lemma set_brightness_index_edges_witness :
  wf three_leds
  /\ led_prefix 50 = Ok 240
  /\ (0 <= -1 < num_leds three_leds ->
      exists s',
        _set_brightness (-1) 50 three_leds = (Ok tt, s')
        /\ getitem (leds s') (4 * -1) = Ok 240)
  /\ (num_leds three_leds <= -1 \/ -1 < - num_leds three_leds ->
      _set_brightness (-1) 50 three_leds = (Raise IndexError, three_leds))
  /\ (- num_leds three_leds <= -1 < 0 ->
      _set_brightness (-1) 50 three_leds
      = _set_brightness (num_leds three_leds + -1) 50 three_leds).
Proof.
  split; [exact three_leds_wf|]. split; [reflexivity|].
  apply (set_brightness_index_edges three_leds (-1) 50 240);
    [exact three_leds_wf | reflexivity].
Defined.

End Pixels.

(** ** More on the protocol encoder *)

Section EncoderMore.
Import Py APA102.

Lemma high_bits_ok_all : forallb Spec.high_bits_ok (range 32) = true.
Proof. vm_compute. reflexivity. Qed.

Lemma prefix_of_bits (x : Z) :
  224 <= Z.lor (Z.land x 31) 224 <= 255
  /\ Z.land (Z.lor (Z.land x 31) 224) 224 = 224.
Proof.
  assert (Hm : 0 <= Z.land x 31 < 32).
  { change 31 with (Z.ones 5). rewrite Z.land_ones by lia.
    apply Z.mod_pos_bound. reflexivity. }
  pose proof high_bits_ok_all as Hall. rewrite forallb_forall in Hall.
  specialize (Hall (Z.land x 31) (proj2 (in_range 32 _) Hm)).
  unfold Spec.high_bits_ok in Hall. apply andb_prop in Hall.
  destruct Hall as [Hadd Hland].
  apply Z.eqb_eq in Hadd. apply Z.eqb_eq in Hland.
  split; [lia | exact Hland].
Qed.

Lemma led_prefix_is_a_prefix_byte_aux (brightness p : Z) :
  led_prefix brightness = Ok p -> 224 <= p <= 255.
Proof.
  unfold led_prefix, bind.
  destruct (int_truediv brightness 100) as [x|]; [|discriminate].
  destruct (float_mul_int x 31) as [y|]; [|discriminate].
  destruct (round y) as [q|]; [|discriminate].
  intros [= <-]. apply prefix_of_bits.
Qed.

(** X4: whatever the brightness, inside 0 to 100 or not, a prefix that
    [led_prefix] returns is a byte from 224 to 255, with its three high
    bits set. *)
Theorem led_prefix_is_a_prefix_byte (brightness p : Z) :
  led_prefix brightness = Ok p ->
  224 <= p <= 255 /\ Z.land p 224 = 224.
Proof.
  unfold led_prefix, bind.
  destruct (int_truediv brightness 100) as [x|]; [|discriminate].
  destruct (float_mul_int x 31) as [y|]; [|discriminate].
  destruct (round y) as [q|]; [|discriminate].
  intros [= <-]. apply prefix_of_bits.
Qed.

Lemma led_prefix_is_a_prefix_byte_witness :
  led_prefix 150 = Ok 238 /\ 224 <= 238 <= 255 /\ Z.land 238 224 = 224.
Proof.
  split; [reflexivity|].
  apply (led_prefix_is_a_prefix_byte 150 238). reflexivity.
Defined.

Lemma prefix_le_all :
  forallb (fun b1 => forallb (fun b2 => (b2 <? b1) || Spec.prefix_le b1 b2) (range 101))
          (range 101) = true.
Proof. vm_compute. reflexivity. Qed.

(** X5: from brightness 0 to brightness 100 the prefix never goes down:
    a brighter setting never gives a smaller brightness field.  It goes
    from 224 (off) to 255 (full). *)
Theorem led_prefix_monotone (b1 b2 : Z) :
  0 <= b1 -> b1 <= b2 -> b2 <= 100 ->
  exists p1 p2,
    led_prefix b1 = Ok p1 /\ led_prefix b2 = Ok p2
    /\ 224 <= p1 /\ p1 <= p2 /\ p2 <= 255.
Proof.
  intros H0 H12 H100.
  pose proof prefix_le_all as Hall. rewrite forallb_forall in Hall.
  specialize (Hall b1 (proj2 (in_range 101 b1) ltac:(lia))).
  rewrite forallb_forall in Hall.
  specialize (Hall b2 (proj2 (in_range 101 b2) ltac:(lia))).
  destruct (Z.ltb_spec b2 b1); [lia|]. cbn [orb] in Hall.
  unfold Spec.prefix_le in Hall.
  destruct (led_prefix b1) as [p1|] eqn:E1; [|discriminate].
  destruct (led_prefix b2) as [p2|] eqn:E2; [|discriminate].
  apply Z.leb_le in Hall.
  destruct (led_prefix_is_a_prefix_byte_aux b1 p1 E1) as [Hlo _].
  destruct (led_prefix_is_a_prefix_byte_aux b2 p2 E2) as [_ Hhi].
  exists p1, p2. repeat split; auto.
Qed.

Lemma led_prefix_monotone_witness :
  0 <= 10 /\ 10 <= 60 /\ 60 <= 100
  /\ exists p1 p2,
      led_prefix 10 = Ok p1 /\ led_prefix 60 = Ok p2
      /\ 224 <= p1 /\ p1 <= p2 /\ p2 <= 255.
Proof.
  split; [lia|]. split; [lia|]. split; [lia|].
  apply (led_prefix_monotone 10 60); lia.
Defined.

Lemma spi_end_frame_covers_aux (n : Z) :
  0 <= n -> n <= 16 * len (spi_end_frame n) < n + 16.
Proof.
  intros Hn. rewrite spi_end_frame_repeat. pose proof (ceil_div_least n) as Hc.
  unfold len. rewrite repeat_length. lia.
Qed.

(** X6: the end frame clocks the data through the whole strip: for a
    strip of [n >= 0] LEDs its bytes hold at least [n / 2] bits, and fewer
    than one byte more than that ([n <= 16 * len < n + 16]); for no LEDs, or
    a negative count, it is empty. *)
Theorem spi_end_frame_covers (n : Z) :
  (0 <= n -> n <= 16 * len (spi_end_frame n) < n + 16)
  /\ (n <= 0 -> spi_end_frame n = []).
Proof.
  rewrite spi_end_frame_repeat. pose proof (ceil_div_least n) as Hc.
  split.
  - intros Hn. unfold len. rewrite repeat_length. lia.
  - intros Hn. replace (Z.to_nat (Spec.ceil_div n 16)) with 0%nat by lia.
    reflexivity.
Qed.

(** X7: [show] makes exactly three transfers, the start frame
    [0, 0, 0, 0], the frame buffer as it is, and an end frame of
    [ceil(num_leds / 16)] zero bytes, and changes nothing in the strip but
    the record of what was sent; on a strip of at most 1024 LEDs no
    transfer is longer than the 4096 entries that one SPI transfer takes. *)
Theorem show_transfers (s : strip) :
  exists s',
    show s = (Ok tt, s')
    /\ leds s' = leds s
    /\ synced_buffer s' = synced_buffer s
    /\ num_leds s' = num_leds s
    /\ max_speed_hz s' = max_speed_hz s
    /\ spi_sent s'
       = spi_sent s
         ++ [[0; 0; 0; 0];
             leds s;
             repeat 0 (Z.to_nat (Spec.ceil_div (num_leds s) 16))]
    /\ (wf s -> num_leds s <= 1024 ->
        len (leds s) <= 4096
        /\ len (repeat 0 (Z.to_nat (Spec.ceil_div (num_leds s) 16))) <= 64).
Proof.
  exists (snd (show s)).
  rewrite show_eq. cbn [snd leds synced_buffer num_leds spi_sent max_speed_hz].
  repeat split.
  - rewrite <- !app_assoc, spi_end_frame_repeat. reflexivity.
  - destruct H as [Hlen _]. lia.
  - destruct H as [Hlen _].
    assert (0 <= num_leds s) by (pose proof (len_nonneg (leds s)); lia).
    pose proof (spi_end_frame_covers_aux (num_leds s)) as Hc.
    rewrite spi_end_frame_repeat in Hc. lia.
Qed.

End EncoderMore.

(** ** The mirror: copying up and down *)

Section Mirror.
Import Py APA102.
Local Open Scope py_scope.

Lemma update_copy {A : Type} (src dst : list A) (k : nat) (d : A) :
  length dst = length src ->
  (k < length src)%nat ->
  update (firstn k src ++ skipn k dst) k (nth k src d)
  = firstn (S k) src ++ skipn (S k) dst.
Proof.
  revert src dst. induction k as [|k IH]; intros [|a src] [|b dst] Hl Hk;
    simpl in *; try lia; try reflexivity.
  f_equal. apply IH; lia.
Qed.

Lemma copy_length {A : Type} (src dst : list A) (k : nat) :
  length dst = length src ->
  length (firstn k src ++ skipn k dst) = length src.
Proof.
  intros Hl. rewrite length_app, length_firstn, length_skipn. lia.
Qed.

Lemma set_leds_same (s : strip) : set_leds (leds s) s = s.
Proof. destruct s. reflexivity. Qed.

Lemma set_synced_buffer_same (s : strip) : set_synced_buffer (synced_buffer s) s = s.
Proof. destruct s. reflexivity. Qed.

(** The loop of [sync_down], from entry [k] on. *)
Lemma sync_down_from (s : strip) (m k : nat) :
  length (leds s) = length (synced_buffer s) ->
  (k + m = length (synced_buffer s))%nat ->
  for_each (map Z.of_nat (seq k m))
    (fun i => v <- synced_getitem i ;; leds_setitem i v)
    (set_leds (firstn k (synced_buffer s) ++ skipn k (leds s)) s)
  = (Ok tt, set_leds (synced_buffer s) s).
Proof.
  intros Hl. revert k. induction m as [|m IH]; intros k Hk.
  - cbn [seq map for_each]. unfold ret.
    rewrite firstn_all2, skipn_all2, app_nil_r by lia. reflexivity.
  - cbn [seq map for_each]. unfold mbind at 1. unfold mbind at 1.
    rewrite synced_getitem_eq. cbn [synced_buffer set_leds].
    rewrite getitem_in_range by (unfold len; lia).
    rewrite leds_setitem_eq. cbn [leds set_leds].
    rewrite setitem_in_range
      by (unfold len; rewrite copy_length by assumption; lia).
    rewrite !Nat2Z.id, update_copy by lia.
    apply (IH (S k)). lia.
Qed.

Lemma sync_down_eq (s : strip) :
  len (leds s) = len (synced_buffer s) ->
  sync_down s = (Ok tt, set_leds (synced_buffer s) s).
Proof.
  intros Hl. unfold len in Hl. apply Nat2Z.inj in Hl.
  unfold sync_down, mbind at 1, get, range, len. rewrite Nat2Z.id.
  pose proof (sync_down_from s (length (synced_buffer s)) 0 Hl eq_refl) as H.
  cbn [firstn skipn app] in H. rewrite set_leds_same in H. exact H.
Qed.

Lemma wrap_c_int_fits (v : Z) : fits_c_int v = true -> wrap_c_int v = v.
Proof.
  unfold fits_c_int, wrap_c_int. intros H. apply andb_prop in H. destruct H as [Hlo Hhi].
  apply Z.leb_le in Hlo. apply Z.ltb_lt in Hhi.
  rewrite Z.mod_small; lia.
Qed.

Lemma map_wrap_c_int_fits (l : list Z) :
  forallb fits_c_int l = true -> map wrap_c_int l = l.
Proof.
  induction l as [|v l IH]; [reflexivity|]. cbn [forallb map].
  intros H. apply andb_prop in H. destruct H as [Hv Hl].
  now rewrite wrap_c_int_fits, IH.
Qed.

(** The loop of [sync_up], from entry [k] on. *)
Lemma sync_up_from (s : strip) (m k : nat) :
  length (synced_buffer s) = length (leds s) ->
  (k + m = length (leds s))%nat ->
  for_each (map Z.of_nat (seq k m))
    (fun i => v <- leds_getitem i ;; synced_setitem i v)
    (set_synced_buffer
       (firstn k (map wrap_c_int (leds s)) ++ skipn k (synced_buffer s)) s)
  = (Ok tt, set_synced_buffer (map wrap_c_int (leds s)) s).
Proof.
  intros Hl. revert k. induction m as [|m IH]; intros k Hk.
  - cbn [seq map for_each]. unfold ret.
    rewrite firstn_all2, skipn_all2, app_nil_r by (rewrite ?length_map; lia).
    reflexivity.
  - cbn [seq map for_each]. unfold mbind at 1. unfold mbind at 1.
    rewrite leds_getitem_eq. cbn [leds set_synced_buffer].
    rewrite getitem_in_range by (unfold len; lia).
    rewrite synced_setitem_eq. cbn [synced_buffer set_synced_buffer].
    rewrite setitem_in_range
      by (unfold len; rewrite copy_length by (rewrite length_map; assumption);
          rewrite length_map; lia).
    rewrite !Nat2Z.id.
    rewrite <- (map_nth wrap_c_int (leds s) 0 k).
    rewrite update_copy by (rewrite ?length_map; lia).
    apply (IH (S k)). lia.
Qed.

Lemma sync_up_wraps (s : strip) :
  len (synced_buffer s) = len (leds s) ->
  sync_up s = (Ok tt, set_synced_buffer (map wrap_c_int (leds s)) s).
Proof.
  intros Hl. unfold len in Hl. apply Nat2Z.inj in Hl.
  unfold sync_up, mbind at 1, get, range, len. rewrite Nat2Z.id.
  pose proof (sync_up_from s (length (leds s)) 0 Hl eq_refl) as H.
  cbn [firstn skipn app] in H. rewrite set_synced_buffer_same in H. exact H.
Qed.

Lemma sync_up_eq (s : strip) :
  len (synced_buffer s) = len (leds s) ->
  forallb fits_c_int (leds s) = true ->
  sync_up s = (Ok tt, set_synced_buffer (leds s) s).
Proof.
  intros Hl Hfits. rewrite sync_up_wraps by assumption.
  now rewrite map_wrap_c_int_fits.
Qed.

(** X8: on a strip whose buffer entries fit a C [int], [sync_up] returns
    and leaves the mirror equal to the frame buffer, entry for entry; the
    frame buffer, the LED count and what was sent stay as they were. *)
Theorem sync_up_copies (s : strip) :
  wf s ->
  forallb fits_c_int (leds s) = true ->
  exists s',
    sync_up s = (Ok tt, s')
    /\ synced_buffer s' = leds s
    /\ leds s' = leds s
    /\ num_leds s' = num_leds s
    /\ spi_sent s' = spi_sent s
    /\ wf s'.
Proof.
  intros [Hl Hm] Hfits. eexists. split; [apply sync_up_eq; [lia | exact Hfits]|].
  cbn. repeat split; assumption.
Qed.

(** X9: on a strip, [sync_down] returns and leaves the frame buffer equal
    to the mirror, entry for entry; the mirror, the LED count and what
    was sent stay as they were, and nothing is transmitted. *)
Theorem sync_down_copies (s : strip) :
  wf s ->
  exists s',
    sync_down s = (Ok tt, s')
    /\ leds s' = synced_buffer s
    /\ synced_buffer s' = synced_buffer s
    /\ num_leds s' = num_leds s
    /\ spi_sent s' = spi_sent s
    /\ wf s'.
Proof.
  intros [Hl Hm]. eexists. split; [apply sync_down_eq; lia|].
  cbn. repeat split; assumption.
Qed.

(** X10: on a strip whose buffer entries fit a C [int], [sync_up] and
    then [sync_down] leave the frame buffer as it was; and on a strip whose
    mirror entries fit, [sync_down] and then [sync_up] leave the mirror as
    it was. *)
Theorem sync_round_trips (s : strip) :
  wf s ->
  (forallb fits_c_int (leds s) = true ->
   exists s',
     (sync_up ;; sync_down) s = (Ok tt, s') /\ leds s' = leds s
     /\ synced_buffer s' = leds s)
  /\ (forallb fits_c_int (synced_buffer s) = true ->
      exists s',
        (sync_down ;; sync_up) s = (Ok tt, s') /\ synced_buffer s' = synced_buffer s
        /\ leds s' = synced_buffer s).
Proof.
  intros [Hl Hm]. split; intros Hfits.
  - unfold mbind. rewrite sync_up_eq by (assumption || lia).
    rewrite sync_down_eq by (cbn; reflexivity).
    eexists. split; [reflexivity|]. split; reflexivity.
  - unfold mbind. rewrite sync_down_eq by lia.
    rewrite sync_up_eq by (cbn; assumption || reflexivity).
    eexists. split; [reflexivity|]. split; reflexivity.
Qed.

Lemma three_leds_fit : forallb fits_c_int (leds three_leds) = true.
Proof. reflexivity. Qed.

Lemma sync_up_copies_witness :
  wf three_leds
  /\ forallb fits_c_int (leds three_leds) = true
  /\ exists s',
      sync_up three_leds = (Ok tt, s')
      /\ synced_buffer s' = leds three_leds
      /\ leds s' = leds three_leds
      /\ num_leds s' = num_leds three_leds
      /\ spi_sent s' = spi_sent three_leds
      /\ wf s'.
Proof.
  split; [exact three_leds_wf|]. split; [exact three_leds_fit|].
  apply (sync_up_copies three_leds three_leds_wf three_leds_fit).
Defined.

Lemma sync_down_copies_witness :
  wf three_leds
  /\ exists s',
      sync_down three_leds = (Ok tt, s')
      /\ leds s' = synced_buffer three_leds
      /\ synced_buffer s' = synced_buffer three_leds
      /\ num_leds s' = num_leds three_leds
      /\ spi_sent s' = spi_sent three_leds
      /\ wf s'.
Proof.
  split; [exact three_leds_wf|].
  apply (sync_down_copies three_leds three_leds_wf).
Defined.

Lemma sync_round_trips_witness :
  wf three_leds
  /\ (forallb fits_c_int (leds three_leds) = true ->
      exists s',
        (sync_up ;; sync_down) three_leds = (Ok tt, s') /\ leds s' = leds three_leds
        /\ synced_buffer s' = leds three_leds)
  /\ (forallb fits_c_int (synced_buffer three_leds) = true ->
      exists s',
        (sync_down ;; sync_up) three_leds = (Ok tt, s')
        /\ synced_buffer s' = synced_buffer three_leds
        /\ leds s' = synced_buffer three_leds).
Proof.
  split; [exact three_leds_wf|].
  apply (sync_round_trips three_leds three_leds_wf).
Defined.

End Mirror.

(** ** More on [rotate] *)

Section Rotation.
Import Py APA102.
Local Open Scope py_scope.

Lemma rotl_app {A : Type} (x r : list A) : Spec.rotl (length x) (x ++ r) = r ++ x.
Proof.
  unfold Spec.rotl.
  rewrite skipn_app, firstn_app, Nat.sub_diag, skipn_all, firstn_all.
  simpl. now rewrite app_nil_r.
Qed.

Lemma rotl_rotl_small {A : Type} (l : list A) (a b : nat) :
  (a + b <= length l)%nat ->
  Spec.rotl a (Spec.rotl b l) = Spec.rotl (a + b) l.
Proof.
  intros Hab.
  set (x := firstn b l). set (r := skipn b l).
  set (y := firstn a r). set (z := skipn a r).
  assert (Hl : l = x ++ y ++ z).
  { subst x y z r. now rewrite !firstn_skipn. }
  assert (Hx : length x = b) by (subst x; rewrite length_firstn; lia).
  assert (Hy : length y = a).
  { subst y r. rewrite length_firstn, length_skipn. lia. }
  rewrite Hl. rewrite <- Hx at 1. rewrite rotl_app.
  rewrite <- app_assoc. rewrite <- Hy at 1. rewrite rotl_app.
  replace (a + b)%nat with (length (x ++ y)) by (rewrite length_app; lia).
  rewrite (app_assoc x y z), rotl_app. now rewrite <- app_assoc.
Qed.

Lemma rotl_rotl_wrap {A : Type} (l : list A) (a b : nat) :
  (a <= length l)%nat -> (b <= length l)%nat -> (length l <= a + b)%nat ->
  Spec.rotl a (Spec.rotl b l) = Spec.rotl (a + b - length l) l.
Proof.
  intros Ha Hb Hab.
  set (k := (a + b - length l)%nat).
  set (x := firstn k l). set (r := skipn k l).
  set (y := firstn (b - k) r). set (z := skipn (b - k) r).
  assert (Hl : l = x ++ y ++ z).
  { subst x y z r. now rewrite !firstn_skipn. }
  assert (Hx : length x = k) by (subst x k; rewrite length_firstn; lia).
  assert (Hy : length y = (b - k)%nat).
  { subst y r k. rewrite length_firstn, length_skipn. lia. }
  assert (Hz : length z = (length l - b)%nat).
  { subst z r k. rewrite !length_skipn. lia. }
  rewrite Hl at 1.
  replace b with (length (x ++ y)) at 1 by (rewrite length_app; lia).
  rewrite (app_assoc x y z), rotl_app.
  replace a with (length (z ++ x)) at 1 by (rewrite length_app; lia).
  rewrite (app_assoc z x y), rotl_app.
  rewrite Hl at 1. rewrite <- Hx at 1. rewrite rotl_app.
  now rewrite <- app_assoc.
Qed.

Lemma nth_rotl {A : Type} (l : list A) (k j : nat) (d : A) :
  (k <= length l)%nat -> (j < length l)%nat ->
  nth j (Spec.rotl k l) d
  = nth (if (j + k <? length l)%nat then j + k else j + k - length l)%nat l d.
Proof.
  intros Hk Hj. unfold Spec.rotl.
  destruct (Nat.ltb_spec (j + k) (length l)) as [Hlt|Hge].
  - rewrite app_nth1 by (rewrite length_skipn; lia).
    rewrite nth_skipn. f_equal. lia.
  - rewrite app_nth2 by (rewrite length_skipn; lia).
    rewrite length_skipn, nth_firstn.
    destruct (Nat.ltb_spec (j - (length l - k)) k); [|lia].
    f_equal. lia.
Qed.

Lemma rotate_rotl (p : Z) (s : strip) :
  wf s -> 0 < num_leds s ->
  rotate p s
  = (Ok tt, set_leds (Spec.rotl (Z.to_nat (4 * (p mod num_leds s))) (leds s)) s).
Proof. intros Hwf Hn. now rewrite rotate_inside. Qed.

Lemma rotate_keeps_wf (p : Z) (s : strip) : wf s -> wf (snd (rotate p s)).
Proof.
  intros Hwf. apply wf_shape in Hwf. apply (keeps_rotate _ _ _ p) in Hwf.
  unfold shape in Hwf. unfold wf. intuition congruence.
Qed.

(** X11: on a strip with LEDs, [rotate] by a multiple of [num_leds]
    leaves the strip as it is, and [rotate] by [p] plus a multiple of
    [num_leds] is [rotate] by [p]: only [p mod num_leds] counts. *)
Theorem rotate_periodic (s : strip) (p k : Z) :
  wf s ->
  0 < num_leds s ->
  rotate (k * num_leds s) s = (Ok tt, s)
  /\ rotate (p + k * num_leds s) s = rotate p s.
Proof.
  intros Hwf Hn. rewrite !rotate_rotl by assumption.
  rewrite Z.mod_mul, Z.mod_add by lia. split; [|reflexivity].
  unfold Spec.rotl. cbn [Z.mul Z.to_nat skipn firstn].
  rewrite app_nil_r. now rewrite set_leds_same.
Qed.

Lemma rotate_periodic_witness :
  wf three_leds
  /\ 0 < num_leds three_leds
  /\ rotate (-2 * num_leds three_leds) three_leds = (Ok tt, three_leds)
  /\ rotate (1 + -2 * num_leds three_leds) three_leds = rotate 1 three_leds.
Proof.
  split; [exact three_leds_wf|]. split; [simpl; lia|].
  apply (rotate_periodic three_leds 1 (-2)); [exact three_leds_wf | simpl; lia].
Defined.

(** X12: on a strip with LEDs, [rotate] by [p] and then by [q] is
    [rotate] by [p + q]. *)
Theorem rotate_composes (s : strip) (p q : Z) :
  wf s ->
  0 < num_leds s ->
  (rotate p ;; rotate q) s = rotate (p + q) s.
Proof.
  intros Hwf Hn. unfold mbind.
  rewrite (rotate_rotl p s Hwf Hn).
  set (n := num_leds s) in *.
  set (s1 := set_leds _ s).
  assert (Hwf1 : wf s1).
  { pose proof (rotate_keeps_wf p s Hwf) as H.
    rewrite (rotate_rotl p s Hwf Hn) in H. exact H. }
  rewrite (rotate_rotl q s1 Hwf1 Hn), (rotate_rotl (p + q) s Hwf Hn).
  subst s1. cbn [leds set_leds num_leds]. fold n. f_equal.
  destruct Hwf as [Hlen _]. unfold len in Hlen. fold n in Hlen.
  pose proof (Z.mod_pos_bound p n Hn) as Hp.
  pose proof (Z.mod_pos_bound q n Hn) as Hq.
  assert (Hpq : (p + q) mod n = (p mod n + q mod n) mod n)
    by (apply Z.add_mod; lia).
  unfold set_leds. f_equal.
  destruct (Z_lt_ge_dec (p mod n + q mod n) n) as [Hlt|Hge].
  - rewrite Hpq, (Z.mod_small (p mod n + q mod n) n) by lia.
    rewrite rotl_rotl_small by lia. f_equal. lia.
  - assert (Hm : (p mod n + q mod n) mod n = p mod n + q mod n - n).
    { symmetry. apply (Z.mod_unique_pos _ _ 1); lia. }
    rewrite Hpq, Hm. rewrite rotl_rotl_wrap by lia. f_equal. lia.
Qed.

Lemma rotate_composes_witness :
  wf three_leds
  /\ 0 < num_leds three_leds
  /\ (rotate 2 ;; rotate (-5)) three_leds = rotate (2 + -5) three_leds.
Proof.
  split; [exact three_leds_wf|]. split; [simpl; lia|].
  apply (rotate_composes three_leds 2 (-5)); [exact three_leds_wf | simpl; lia].
Defined.

Lemma nth_rotl_pixel (l : list Z) (n i m d : Z) :
  len l = 4 * n -> 0 <= i < n -> 0 <= m < n -> 0 <= d < 4 ->
  nth (Z.to_nat (4 * i + d)) (Spec.rotl (Z.to_nat (4 * m)) l) 0
  = nth (Z.to_nat (4 * ((i + m) mod n) + d)) l 0.
Proof.
  intros Hlen Hi Hm Hd. unfold len in Hlen.
  rewrite nth_rotl by lia.
  destruct (Nat.ltb_spec (Z.to_nat (4 * i + d) + Z.to_nat (4 * m)) (length l)) as [Hlt|Hge].
  - rewrite (Z.mod_small (i + m) n) by lia. f_equal. lia.
  - assert (Hmod : (i + m) mod n = i + m - n).
    { symmetry. apply (Z.mod_unique_pos _ _ 1); lia. }
    rewrite Hmod. f_equal. lia.
Qed.

(** X13: on a strip with LEDs, [rotate] by [p] moves the colours down by
    [p] places around the strip: afterwards [get_pixel] on [i] returns what
    it returned on [(i + p) mod num_leds] before. *)
Theorem rotate_moves_pixels (s : strip) (p i : Z) :
  wf s ->
  0 < num_leds s ->
  0 <= i < num_leds s ->
  exists s',
    rotate p s = (Ok tt, s')
    /\ fst (get_pixel i s') = fst (get_pixel ((i + p) mod num_leds s) s).
Proof.
  intros Hwf Hn Hi. eexists. split; [now apply rotate_rotl|].
  set (n := num_leds s) in *.
  set (s1 := set_leds _ s).
  assert (Hwf1 : wf s1).
  { pose proof (rotate_keeps_wf p s Hwf) as H.
    rewrite (rotate_rotl p s Hwf Hn) in H. exact H. }
  pose proof (Z.mod_pos_bound p n Hn) as Hp.
  pose proof (Z.mod_pos_bound (i + p) n Hn) as Hip.
  rewrite (get_pixel_at s1 i Hwf1 Hi), (get_pixel_at s _ Hwf Hip).
  subst s1. cbn [fst leds set_leds]. fold n.
  destruct Hwf as [Hlen _]. fold n in Hlen.
  rewrite <- (Z.add_mod_idemp_r i p n) by lia.
  rewrite !(nth_rotl_pixel (leds s) n i (p mod n)) by lia.
  reflexivity.
Qed.

Lemma rotate_moves_pixels_witness :
  wf three_leds
  /\ 0 < num_leds three_leds
  /\ 0 <= 2 < num_leds three_leds
  /\ exists s',
      rotate (-1) three_leds = (Ok tt, s')
      /\ fst (get_pixel 2 s')
         = fst (get_pixel ((2 + -1) mod num_leds three_leds) three_leds).
Proof.
  split; [exact three_leds_wf|]. split; [simpl; lia|]. split; [simpl; lia|].
  apply (rotate_moves_pixels three_leds (-1) 2);
    [exact three_leds_wf | simpl; lia | simpl; lia].
Defined.

(** X14: what [rotate] does on any strip and for any [p]: with no LEDs
    it raises [ZeroDivisionError] and changes nothing; otherwise it returns,
    the frame buffer holds the same entries as before in another order, and
    the mirror, the LED count and what was sent are as before. *)
Theorem rotate_rearranges (s : strip) (p : Z) :
  (num_leds s = 0 /\ rotate p s = (Raise ZeroDivisionError, s))
  \/ (num_leds s <> 0
      /\ exists s',
          rotate p s = (Ok tt, s')
          /\ Permutation (leds s') (leds s)
          /\ synced_buffer s' = synced_buffer s
          /\ num_leds s' = num_leds s
          /\ spi_sent s' = spi_sent s).
Proof.
  rewrite rotate_eq. unfold int_mod.
  destruct (Z.eqb_spec (num_leds s) 0) as [H0|Hn0].
  - left. split; [exact H0 | reflexivity].
  - right. split; [exact Hn0|]. eexists. split; [reflexivity|].
    cbn [leds set_leds synced_buffer num_leds spi_sent]. repeat split.
    unfold slice_from, slice_to.
    etransitivity; [apply Permutation_app_comm|].
    now rewrite firstn_skipn.
Qed.

End Rotation.

(** ** More on the configuration of a colour cycle *)

Section ConfigurationMore.
Import Py ColorCycle.
Local Open Scope string_scope.
Local Open Scope Z_scope.

(** X15: what [set_parameter] does, whatever the validators are.  When it
    returns, the name is one of the three parameters, the validator of this
    parameter has accepted the value, the parameter holds the value, and the
    other parameters and [order] are as before.  For any other name it
    raises the error of an unknown parameter. *)
Theorem set_parameter_outcomes
    (verify : verifyparameters) (self : params) (param_name : string) (v : value) :
  (forall self',
      set_parameter verify self param_name v = Ok self' ->
      order self' = order self
      /\ ((param_name = "pause_sec"
           /\ not_negative_numeric verify v param_name = Ok tt
           /\ pause_sec self' = v
           /\ num_steps_per_cycle self' = num_steps_per_cycle self
           /\ num_cycles self' = num_cycles self)
          \/ (param_name = "num_steps_per_cycle"
              /\ positive_integer verify v param_name = Ok tt
              /\ pause_sec self' = pause_sec self
              /\ num_steps_per_cycle self' = v
              /\ num_cycles self' = num_cycles self)
          \/ (param_name = "num_cycles"
              /\ positive_integer verify v param_name = Ok tt
              /\ pause_sec self' = pause_sec self
              /\ num_steps_per_cycle self' = num_steps_per_cycle self
              /\ num_cycles self' = v)))
  /\ (param_name <> "pause_sec" ->
      param_name <> "num_steps_per_cycle" ->
      param_name <> "num_cycles" ->
      set_parameter verify self param_name v = Raise (InvalidParameters_unknown param_name)).
Proof.
  unfold set_parameter. split.
  - intros self'.
    destruct (String.eqb_spec param_name "pause_sec") as [E1|N1].
    { destruct (not_negative_numeric verify v param_name) as [[]|e]; [|discriminate].
      intros [= <-]. cbn. split; [reflexivity|]. left. auto. }
    destruct (String.eqb_spec param_name "num_steps_per_cycle") as [E2|N2].
    { destruct (positive_integer verify v param_name) as [[]|e]; [|discriminate].
      intros [= <-]. cbn. split; [reflexivity|]. right. left. auto. }
    destruct (String.eqb_spec param_name "num_cycles") as [E3|N3]; [|discriminate].
    destruct (positive_integer verify v param_name) as [[]|e]; [|discriminate].
    intros [= <-]. cbn. split; [reflexivity|]. right. right. auto.
  - intros N1 N2 N3.
    destruct (String.eqb_spec param_name "pause_sec"); [contradiction|].
    destruct (String.eqb_spec param_name "num_steps_per_cycle"); [contradiction|].
    destruct (String.eqb_spec param_name "num_cycles"); [contradiction|].
    reflexivity.
Qed.

(** What [check_runnable] does on any parameters: it returns exactly
    when the three parameters count as true, and otherwise raises the error
    of a missing parameter for the first of [pause_sec],
    [num_steps_per_cycle], [num_cycles] that counts as false, be it unset
    or 0, 0.0, [False] or the empty string. *)
Lemma check_runnable_outcome (self : params) :
  (check_runnable self = Ok tt
   /\ truthy (pause_sec self) = true
   /\ truthy (num_steps_per_cycle self) = true
   /\ truthy (num_cycles self) = true)
  \/ (check_runnable self = Raise (missing "pause_sec")
      /\ truthy (pause_sec self) = false)
  \/ (check_runnable self = Raise (missing "num_steps_per_cycle")
      /\ truthy (pause_sec self) = true
      /\ truthy (num_steps_per_cycle self) = false)
  \/ (check_runnable self = Raise (missing "num_cycles")
      /\ truthy (pause_sec self) = true
      /\ truthy (num_steps_per_cycle self) = true
      /\ truthy (num_cycles self) = false).
Proof.
  unfold check_runnable.
  destruct (truthy (pause_sec self)); cbn [negb]; [|right; left; auto].
  destruct (truthy (num_steps_per_cycle self)); cbn [negb]; [|right; right; left; auto].
  destruct (truthy (num_cycles self)); cbn [negb]; [left; auto|].
  right. right. right. auto.
Qed.

End ConfigurationMore.

(** ** More on the life cycle: the shape of a run *)

Section RunShape.
Import Py ColorCycle.
Local Open Scope py_scope.

Lemma updates_step_calls (pause : value) (st cy : Z) (b : bool) :
  updates (step_calls pause st cy b) = [(st, cy)].
Proof. destruct b; reflexivity. Qed.

Lemma updates_blocks (pause : value) (sts : list (Z * Z * bool)) :
  updates (blocks pause sts) = map fst sts.
Proof.
  induction sts as [|[[st cy] b] sts IH]; [reflexivity|].
  unfold blocks in *. cbn [flat_map map fst].
  now rewrite updates_app, updates_step_calls, IH.
Qed.

Lemma shows_app (a b : trace) : shows (a ++ b) = (shows a + shows b)%nat.
Proof. unfold shows. now rewrite filter_app, length_app. Qed.

Lemma shows_blocks (pause : value) (sts : list (Z * Z * bool)) :
  shows (blocks pause sts) = length (filter snd sts).
Proof.
  induction sts as [|[[st cy] b] sts IH]; [reflexivity|].
  unfold blocks in *. cbn [flat_map filter snd].
  rewrite shows_app, IH. destruct b; reflexivity.
Qed.

Lemma sleeps_app (a b : trace) : sleeps (a ++ b) = sleeps a ++ sleeps b.
Proof.
  induction a as [|c a IH]; simpl; [reflexivity|].
  destruct c; simpl; congruence.
Qed.

Lemma sleeps_blocks (pause : value) (sts : list (Z * Z * bool)) :
  sleeps (blocks pause sts) = repeat pause (length sts).
Proof.
  induction sts as [|[[st cy] b] sts IH]; [reflexivity|].
  unfold blocks in *. cbn [flat_map length repeat].
  rewrite sleeps_app, IH. destruct b; reflexivity.
Qed.

Lemma loop_call_blocks (pause : value) (sts : list (Z * Z * bool)) :
  Forall loop_call (blocks pause sts).
Proof.
  induction sts as [|[[st cy] b] sts IH]; [constructor|].
  unfold blocks in *. cbn [flat_map]. apply Forall_app. split; [|exact IH].
  destruct b; repeat constructor.
Qed.

Lemma blocks_app (pause : value) (a b : list (Z * Z * bool)) :
  blocks pause (a ++ b) = blocks pause a ++ blocks pause b.
Proof. unfold blocks. apply flat_map_app. Qed.

Lemma answered_app (env : world) (pause : value) (tr : trace) (a b : list (Z * Z * bool)) :
  answered env pause tr a ->
  answered env pause (tr ++ blocks pause a) b ->
  answered env pause tr (a ++ b).
Proof.
  revert tr. induction a as [|[[st cy] r] a IH]; intros tr Ha Hb.
  - cbn in Hb. now rewrite app_nil_r in Hb.
  - cbn [app answered] in *. destruct Ha as [Hv Ha]. split; [exact Hv|].
    apply IH; [exact Ha|].
    unfold blocks in *. cbn [flat_map] in Hb. now rewrite <- app_assoc.
Qed.

Section Loop.
Variable env : world.
Variable self : params.
Hypothesis loop_returns : forall tr c, loop_call c -> exists v, env tr c = Returns v.

Lemma step_block (cy st : Z) (tr : trace) :
  exists b,
    (needRepaint <- do env (Update st cy) ;;
     (if truthy needRepaint then do env Strip_show ;; ret tt else ret tt) ;;
     do env (Sleep (pause_sec self)) ;;
     ret tt) tr = (Ok tt, tr ++ step_calls (pause_sec self) st cy b)
    /\ (exists v, env tr (Update st cy) = Returns v /\ truthy v = b).
Proof.
  unfold mbind, do, ret.
  destruct (loop_returns tr (Update st cy) I) as [v Hv]. rewrite Hv.
  exists (truthy v). split; [|eauto].
  destruct (truthy v).
  - destruct (loop_returns (tr ++ [Update st cy]) Strip_show I) as [v2 ->].
    destruct (loop_returns ((tr ++ [Update st cy]) ++ [Strip_show])
                (Sleep (pause_sec self)) I) as [v3 ->].
    unfold step_calls. now rewrite <- !app_assoc.
  - destruct (loop_returns (tr ++ [Update st cy]) (Sleep (pause_sec self)) I) as [v3 ->].
    unfold step_calls. now rewrite <- !app_assoc.
Qed.

Lemma for_each_blocks (cy : Z) (xs : list Z) (tr : trace) :
  exists sts,
    for_each xs (fun currentStep =>
      needRepaint <- do env (Update currentStep cy) ;;
      (if truthy needRepaint then do env Strip_show ;; ret tt else ret tt) ;;
      do env (Sleep (pause_sec self)) ;;
      ret tt) tr = (Ok tt, tr ++ blocks (pause_sec self) sts)
    /\ map fst sts = map (fun st => (st, cy)) xs
    /\ answered env (pause_sec self) tr sts.
Proof.
  revert tr. induction xs as [|st xs IH]; intros tr.
  - exists []. cbn. rewrite app_nil_r. auto.
  - cbn [for_each]. unfold mbind at 1.
    destruct (step_block cy st tr) as (b & -> & Hb).
    destruct (IH (tr ++ step_calls (pause_sec self) st cy b)) as (sts & -> & Hm & Ha).
    exists ((st, cy, b) :: sts). split; [|split].
    + unfold blocks. cbn [flat_map]. now rewrite app_assoc.
    + cbn [map fst]. now rewrite Hm.
    + cbn [answered]. split; assumption.
Qed.

Variable n : Z.
Hypothesis steps_set : num_steps_per_cycle self = VInt n.

Lemma steps_blocks (cy : Z) (tr : trace) :
  exists sts,
    steps env self cy tr = (Ok tt, tr ++ blocks (pause_sec self) sts)
    /\ map fst sts = cycle_updates n cy
    /\ answered env (pause_sec self) tr sts.
Proof.
  unfold steps. rewrite steps_set. cbn [range_of]. unfold mbind at 1, lift.
  apply for_each_blocks.
Qed.

(** With a number of cycles, the loop goes through [max 1 cycles] of them:
    the test for the end comes after the cycle. *)
Lemma while_true_blocks (cycles : Z) (k : nat) :
  num_cycles self = VInt cycles ->
  cycles <> -1 ->
  forall (fuel : nat) (cy : Z) (tr : trace),
    (k <= fuel)%nat ->
    Z.of_nat k = Z.max 1 (cycles - cy) ->
    exists sts,
      while_true env self fuel cy tr = (Ok true, tr ++ blocks (pause_sec self) sts)
      /\ map fst sts = cycles_updates n k cy
      /\ answered env (pause_sec self) tr sts.
Proof.
  intros Hcycles Hm1.
  induction k as [|k IH]; intros fuel cy tr Hfuel Hk; [lia|].
  destruct fuel as [|fuel]; [lia|].
  cbn [while_true cycles_updates]. unfold mbind at 1.
  destruct (steps_blocks cy tr) as (s1 & -> & Hu1 & Ha1).
  rewrite Hcycles. cbn [ne_int int_ge].
  destruct (Z.eqb_spec cycles (-1)) as [|_]; [contradiction|]. cbn [negb].
  unfold mbind at 1, lift.
  destruct (Z.leb_spec cycles (cy + 1)) as [Hle|Hgt].
  - assert (k = 0%nat) by lia. subst k.
    exists s1. cbn [cycles_updates]. rewrite app_nil_r. unfold ret. auto.
  - destruct (IH fuel (cy + 1) (tr ++ blocks (pause_sec self) s1)) as (s2 & -> & Hu2 & Ha2);
      try lia.
    exists (s1 ++ s2). split; [|split].
    + now rewrite blocks_app, app_assoc.
    + now rewrite map_app, Hu1, Hu2.
    + now apply answered_app.
Qed.

(** Without one, it goes on as long as it is followed. *)
Lemma while_true_for_ever (fuel : nat) :
  num_cycles self = VInt (-1) ->
  forall (cy : Z) (tr : trace),
    exists sts,
      while_true env self fuel cy tr = (Ok false, tr ++ blocks (pause_sec self) sts)
      /\ map fst sts = cycles_updates n fuel cy
      /\ answered env (pause_sec self) tr sts.
Proof.
  intros Hcycles.
  induction fuel as [|fuel IH]; intros cy tr.
  - exists []. cbn. rewrite app_nil_r. auto.
  - cbn [while_true cycles_updates]. unfold mbind at 1.
    destruct (steps_blocks cy tr) as (s1 & -> & Hu1 & Ha1).
    rewrite Hcycles. change (ne_int (VInt (-1)) (-1)) with false. cbv iota.
    unfold mbind at 1, ret.
    destruct (IH (cy + 1) (tr ++ blocks (pause_sec self) s1)) as (s2 & -> & Hu2 & Ha2).
    exists (s1 ++ s2). split; [|split].
    + now rewrite blocks_app, app_assoc.
    + now rewrite map_app, Hu1, Hu2.
    + now apply answered_app.
Qed.

Lemma front_blocks (cycles : Z) (fuel : nat) :
  num_cycles self = VInt cycles ->
  cycles <> -1 ->
  Z.max 1 cycles <= Z.of_nat fuel ->
  exists sts,
    front env self fuel []
    = (Ok true, [Init; Strip_show] ++ blocks (pause_sec self) sts)
    /\ map fst sts = cycles_updates n (Z.to_nat (Z.max 1 cycles)) 0
    /\ answered env (pause_sec self) [Init; Strip_show] sts.
Proof.
  intros Hcycles Hm1 Hfuel. unfold front, mbind, do.
  destruct (loop_returns [] Init I) as [v1 ->].
  destruct (loop_returns ([] ++ [Init]) Strip_show I) as [v2 ->].
  apply (while_true_blocks cycles (Z.to_nat (Z.max 1 cycles)) Hcycles Hm1); lia.
Qed.

Lemma front_for_ever (fuel : nat) :
  num_cycles self = VInt (-1) ->
  exists sts,
    front env self fuel []
    = (Ok false, [Init; Strip_show] ++ blocks (pause_sec self) sts)
    /\ map fst sts = cycles_updates n fuel 0
    /\ answered env (pause_sec self) [Init; Strip_show] sts.
Proof.
  intros Hcycles. unfold front, mbind, do.
  destruct (loop_returns [] Init I) as [v1 ->].
  destruct (loop_returns ([] ++ [Init]) Strip_show I) as [v2 ->].
  now apply while_true_for_ever.
Qed.

End Loop.

(** [cleanup], from a trace after which every call returns. *)
Lemma cleanup_after (env : world) (tr : trace) :
  (forall ext c, exists v, env (tr ++ ext) c = Returns v) ->
  cleanup env tr = (Ok tt, tr ++ cleanup_calls).
Proof.
  intros Hq.
  unfold cleanup, strip_clearStrip, strip_cleanup, mbind, do, ret.
  destruct (Hq [] Shutdown) as [v1 H1]. rewrite app_nil_r in H1. rewrite H1.
  destruct (Hq [Shutdown] Strip_clear) as [v2 ->].
  replace ((tr ++ [Shutdown]) ++ [Strip_clear]) with (tr ++ [Shutdown; Strip_clear])
    by (now rewrite <- app_assoc).
  destruct (Hq [Shutdown; Strip_clear] Strip_show) as [v3 ->].
  replace ((tr ++ [Shutdown; Strip_clear]) ++ [Strip_show])
    with (tr ++ [Shutdown; Strip_clear; Strip_show])
    by (now rewrite <- app_assoc).
  destruct (Hq [Shutdown; Strip_clear; Strip_show] Strip_release) as [v4 ->].
  now rewrite <- app_assoc.
Qed.

Lemma cycles_updates_length (n : Z) (k : nat) (cy : Z) :
  length (cycles_updates n k cy) = (k * Z.to_nat n)%nat.
Proof.
  revert cy. induction k as [|k IH]; intros cy; [reflexivity|].
  cbn [cycles_updates]. rewrite length_app, IH.
  unfold cycle_updates. rewrite length_map, range_length. lia.
Qed.

Lemma run_shape
    (env : world) (self : params) (n cycles : Z) (fuel : nat) :
  (forall tr c, exists v, env tr c = Returns v) ->
  num_steps_per_cycle self = VInt n ->
  num_cycles self = VInt cycles ->
  cycles <> -1 ->
  Z.max 1 cycles <= Z.of_nat fuel ->
  exists sts,
    run env self fuel []
    = (Ok true, [Init; Strip_show] ++ blocks (pause_sec self) sts ++ cleanup_calls)
    /\ map fst sts = cycles_updates n (Z.to_nat (Z.max 1 cycles)) 0
    /\ answered env (pause_sec self) [Init; Strip_show] sts.
Proof.
  intros Hall Hsteps Hcycles Hm1 Hfuel. rewrite run_eq.
  destruct (front_blocks env self (fun tr c _ => Hall tr c) n Hsteps cycles fuel
              Hcycles Hm1 Hfuel) as (sts & -> & Hu & Ha).
  rewrite cleanup_after by (intros; apply Hall).
  exists sts. rewrite <- app_assoc. auto.
Qed.

(** X17: the test for the last cycle comes after the cycle, so a [run] in
    which every call returns goes through [max 1 num_cycles] cycles when
    [num_cycles] is not [-1]: one whole cycle also for a count of 0 or
    below.  It calls [update] for each step of each of these cycles in
    order, then runs [cleanup] once and returns. *)
Theorem run_goes_through_cycles
    (env : world) (self : params) (n cycles : Z) (fuel : nat) :
  (forall tr c, exists v, env tr c = Returns v) ->
  num_steps_per_cycle self = VInt n ->
  num_cycles self = VInt cycles ->
  cycles <> -1 ->
  Z.max 1 cycles <= Z.of_nat fuel ->
  exists tr,
    run env self fuel [] = (Ok true, tr)
    /\ updates tr = cycles_updates n (Z.to_nat (Z.max 1 cycles)) 0
    /\ length (updates tr) = (Z.to_nat (Z.max 1 cycles) * Z.to_nat n)%nat
    /\ cleanups tr = 1%nat.
Proof.
  intros Hall Hsteps Hcycles Hm1 Hfuel.
  destruct (run_shape env self n cycles fuel Hall Hsteps Hcycles Hm1 Hfuel)
    as (sts & Hrun & Hu & _).
  eexists. split; [exact Hrun|].
  assert (Hup : updates ([Init; Strip_show] ++ blocks (pause_sec self) sts ++ cleanup_calls)
                = cycles_updates n (Z.to_nat (Z.max 1 cycles)) 0).
  { rewrite !updates_app, updates_blocks, Hu. cbn. now rewrite app_nil_r. }
  split; [exact Hup|]. split; [rewrite Hup; apply cycles_updates_length|].
  rewrite !cleanups_app.
  destruct (loop_calls_no_cleanup _ (loop_call_blocks (pause_sec self) sts)) as [-> _].
  reflexivity.
Qed.

Lemma run_goes_through_cycles_witness :
  (forall tr c, exists v, quiet tr c = Returns v)
  /\ num_steps_per_cycle (mkParams (VInt 1) (VInt 2) (VInt 0) "rgb") = VInt 2
  /\ num_cycles (mkParams (VInt 1) (VInt 2) (VInt 0) "rgb") = VInt 0
  /\ 0 <> -1
  /\ Z.max 1 0 <= Z.of_nat 1
  /\ exists tr,
      run quiet (mkParams (VInt 1) (VInt 2) (VInt 0) "rgb") 1 [] = (Ok true, tr)
      /\ updates tr = cycles_updates 2 (Z.to_nat (Z.max 1 0)) 0
      /\ length (updates tr) = (Z.to_nat (Z.max 1 0) * Z.to_nat 2)%nat
      /\ cleanups tr = 1%nat.
Proof.
  split; [intros tr c; exists VNone; reflexivity|].
  split; [reflexivity|]. split; [reflexivity|]. split; [lia|]. split; [simpl; lia|].
  apply (run_goes_through_cycles quiet (mkParams (VInt 1) (VInt 2) (VInt 0) "rgb") 2 0 1).
  - intros tr c. exists VNone. reflexivity.
  - reflexivity.
  - reflexivity.
  - lia.
  - simpl. lia.
Defined.

(** X18: in a [run] in which every call returns and that has a number of
    cycles, the calls are: [init], a transmission, then for each [update]
    the call itself, a transmission exactly when it returned a value that
    counts as true, and a pause of [pause_sec]; then the calls of [cleanup].
    So the strip is transmitted to twice plus once for each [update] that
    asked for it, and there is one pause of [pause_sec] for each [update]. *)
Theorem run_transmits_on_repaint
    (env : world) (self : params) (n cycles : Z) (fuel : nat) :
  (forall tr c, exists v, env tr c = Returns v) ->
  num_steps_per_cycle self = VInt n ->
  num_cycles self = VInt cycles ->
  cycles <> -1 ->
  Z.max 1 cycles <= Z.of_nat fuel ->
  exists sts tr,
    run env self fuel [] = (Ok true, tr)
    /\ tr = [Init; Strip_show] ++ blocks (pause_sec self) sts ++ cleanup_calls
    /\ answered env (pause_sec self) [Init; Strip_show] sts
    /\ updates tr = map fst sts
    /\ shows tr = (2 + length (filter snd sts))%nat
    /\ sleeps tr = repeat (pause_sec self) (length (updates tr)).
Proof.
  intros Hall Hsteps Hcycles Hm1 Hfuel.
  destruct (run_shape env self n cycles fuel Hall Hsteps Hcycles Hm1 Hfuel)
    as (sts & Hrun & Hu & Ha).
  exists sts. eexists. split; [exact Hrun|]. split; [reflexivity|].
  split; [exact Ha|].
  assert (Hup : updates ([Init; Strip_show] ++ blocks (pause_sec self) sts ++ cleanup_calls)
                = map fst sts).
  { rewrite !updates_app, updates_blocks. cbn. now rewrite app_nil_r. }
  split; [exact Hup|]. split.
  - rewrite !shows_app, shows_blocks. cbn. lia.
  - rewrite Hup, !sleeps_app, sleeps_blocks, length_map. cbn. now rewrite app_nil_r.
Qed.

Lemma run_transmits_on_repaint_witness :
  (forall tr c, exists v, quiet tr c = Returns v)
  /\ num_steps_per_cycle five_by_three = VInt 5
  /\ num_cycles five_by_three = VInt 3
  /\ 3 <> -1
  /\ Z.max 1 3 <= Z.of_nat 3
  /\ exists sts tr,
      run quiet five_by_three 3 [] = (Ok true, tr)
      /\ tr = [Init; Strip_show] ++ blocks (pause_sec five_by_three) sts ++ cleanup_calls
      /\ answered quiet (pause_sec five_by_three) [Init; Strip_show] sts
      /\ updates tr = map fst sts
      /\ shows tr = (2 + length (filter snd sts))%nat
      /\ sleeps tr = repeat (pause_sec five_by_three) (length (updates tr)).
Proof.
  split; [intros tr c; exists VNone; reflexivity|].
  split; [reflexivity|]. split; [reflexivity|]. split; [lia|]. split; [simpl; lia|].
  apply (run_transmits_on_repaint quiet five_by_three 5 3 3).
  - intros tr c. exists VNone. reflexivity.
  - reflexivity.
  - reflexivity.
  - lia.
  - simpl. lia.
Defined.

(** X19: with [num_cycles] set to [-1] and as long as the calls of the
    loop return, [run] does not leave its loop: however many cycles it is
    followed through, it has not returned, it has called [update] for each
    step of each of them, and it has not begun a cleanup. *)
Theorem run_for_ever
    (env : world) (self : params) (n : Z) (fuel : nat) :
  (forall tr c, loop_call c -> exists v, env tr c = Returns v) ->
  num_steps_per_cycle self = VInt n ->
  num_cycles self = VInt (-1) ->
  exists tr,
    run env self fuel [] = (Ok false, tr)
    /\ updates tr = cycles_updates n fuel 0
    /\ length (updates tr) = (fuel * Z.to_nat n)%nat
    /\ cleanups tr = 0%nat.
Proof.
  intros Hloop Hsteps Hcycles. rewrite run_eq.
  destruct (front_for_ever env self Hloop n Hsteps fuel Hcycles) as (sts & -> & Hu & _).
  eexists. split; [reflexivity|].
  assert (Hup : updates ([Init; Strip_show] ++ blocks (pause_sec self) sts)
                = cycles_updates n fuel 0).
  { rewrite updates_app, updates_blocks, Hu. reflexivity. }
  split; [exact Hup|]. split; [rewrite Hup; apply cycles_updates_length|].
  rewrite cleanups_app.
  destruct (loop_calls_no_cleanup _ (loop_call_blocks (pause_sec self) sts)) as [-> _].
  reflexivity.
Qed.

Lemma run_for_ever_witness :
  (forall tr c, loop_call c -> exists v, quiet tr c = Returns v)
  /\ num_steps_per_cycle for_ever = VInt 1
  /\ num_cycles for_ever = VInt (-1)
  /\ exists tr,
      run quiet for_ever 7 [] = (Ok false, tr)
      /\ updates tr = cycles_updates 1 7 0
      /\ length (updates tr) = (7 * Z.to_nat 1)%nat
      /\ cleanups tr = 0%nat.
Proof.
  split; [intros tr c _; exists VNone; reflexivity|].
  split; [reflexivity|]. split; [reflexivity|].
  apply (run_for_ever quiet for_ever 1 7).
  - intros tr c _. exists VNone. reflexivity.
  - reflexivity.
  - reflexivity.
Defined.

(** X20: [run] does not check the parameters itself.  With
    [num_steps_per_cycle] unset, and [init] and the first transmission
    returning, it raises [TypeError] at the head of the first cycle: it
    has called [init] and [show] once each, it calls no [update] and no
    pause, and no [cleanup] runs. *)
Theorem run_unconfigured (env : world) (self : params) (fuel : nat) :
  (exists v, env [] Init = Returns v) ->
  (exists v, env [Init] Strip_show = Returns v) ->
  (1 <= fuel)%nat ->
  num_steps_per_cycle self = VNone ->
  run env self fuel [] = (Raise TypeError, [Init; Strip_show])
  /\ updates [Init; Strip_show] = []
  /\ cleanups [Init; Strip_show] = 0%nat.
Proof.
  intros [v1 H1] [v2 H2] Hfuel Hsteps. destruct fuel as [|fuel]; [lia|].
  split; [|split; reflexivity].
  rewrite run_eq. unfold front, mbind, do.
  rewrite H1. cbn [app]. rewrite H2.
  cbn [while_true]. unfold steps. rewrite Hsteps. reflexivity.
Qed.

Lemma run_unconfigured_witness :
  (exists v, quiet [] Init = Returns v)
  /\ (exists v, quiet [Init] Strip_show = Returns v)
  /\ (1 <= 2)%nat
  /\ num_steps_per_cycle init_parameters = VNone
  /\ run quiet init_parameters 2 [] = (Raise TypeError, [Init; Strip_show])
  /\ updates [Init; Strip_show] = []
  /\ cleanups [Init; Strip_show] = 0%nat.
Proof.
  split; [exists VNone; reflexivity|]. split; [exists VNone; reflexivity|].
  split; [lia|]. split; [reflexivity|].
  apply (run_unconfigured quiet init_parameters 2).
  - exists VNone. reflexivity.
  - exists VNone. reflexivity.
  - lia.
  - reflexivity.
Defined.

(** X22: with [pause_sec] a number that is not negative and
    [num_steps_per_cycle] an integer, but [num_cycles] unset, and the calls
    of the loop returning, [run] goes through the whole first cycle and then
    raises [TypeError] at the test for the last cycle; no [cleanup] runs. *)
Theorem run_without_cycles (env : world) (self : params) (n : Z) (fuel : nat) :
  (forall tr c, loop_call c -> exists v, env tr c = Returns v) ->
  (1 <= fuel)%nat ->
  sleepable (pause_sec self) = true ->
  num_steps_per_cycle self = VInt n ->
  num_cycles self = VNone ->
  exists tr,
    run env self fuel [] = (Raise TypeError, tr)
    /\ updates tr = cycle_updates n 0
    /\ sleeps tr = repeat (pause_sec self) (length (cycle_updates n 0))
    /\ cleanups tr = 0%nat.
Proof.
  intros Hloop Hfuel _ Hsteps Hcycles. destruct fuel as [|fuel]; [lia|].
  rewrite run_eq. unfold front, mbind at 1 2, do.
  destruct (Hloop [] Init I) as [v1 ->].
  destruct (Hloop ([] ++ [Init]) Strip_show I) as [v2 ->].
  cbn [while_true]. unfold mbind at 1.
  destruct (steps_blocks env self Hloop n Hsteps 0 (([] ++ [Init]) ++ [Strip_show]))
    as (sts & -> & Hu & _).
  rewrite Hcycles. cbn [ne_int int_ge]. unfold mbind at 1, lift. cbv iota beta.
  eexists. split; [reflexivity|]. split; [|split].
  - rewrite !updates_app, updates_blocks, Hu. reflexivity.
  - rewrite !sleeps_app, sleeps_blocks, <- Hu, length_map. reflexivity.
  - rewrite !cleanups_app.
    destruct (loop_calls_no_cleanup _ (loop_call_blocks (pause_sec self) sts)) as [-> _].
    reflexivity.
Qed.

Lemma run_without_cycles_witness :
  (forall tr c, loop_call c -> exists v, quiet tr c = Returns v)
  /\ (1 <= 2)%nat
  /\ sleepable (pause_sec (mkParams (VInt 1) (VInt 2) VNone "rgb")) = true
  /\ num_steps_per_cycle (mkParams (VInt 1) (VInt 2) VNone "rgb") = VInt 2
  /\ num_cycles (mkParams (VInt 1) (VInt 2) VNone "rgb") = VNone
  /\ exists tr,
      run quiet (mkParams (VInt 1) (VInt 2) VNone "rgb") 2 [] = (Raise TypeError, tr)
      /\ updates tr = cycle_updates 2 0
      /\ sleeps tr
         = repeat (pause_sec (mkParams (VInt 1) (VInt 2) VNone "rgb"))
             (length (cycle_updates 2 0))
      /\ cleanups tr = 0%nat.
Proof.
  split; [intros tr c _; exists VNone; reflexivity|]. split; [lia|].
  split; [reflexivity|]. split; [reflexivity|]. split; [reflexivity|].
  apply (run_without_cycles quiet (mkParams (VInt 1) (VInt 2) VNone "rgb") 2 2).
  - intros tr c _. exists VNone. reflexivity.
  - lia.
  - reflexivity.
  - reflexivity.
  - reflexivity.
Defined.

Lemma cleanups_cleanup_upto (c : call) : cleanups (cleanup_upto c) = 1%nat.
Proof. destruct c; reflexivity. Qed.

(** X21: [cleanup] is not guarded against running twice.  When the
    shutdown hook, the clearing of the buffer or the release of the
    transport is hit by a [KeyboardInterrupt] the first time it is called,
    in the cleanup at the end of the cycles, [run] goes through [cleanup]
    again from its start: the trace holds the calls of [cleanup] up to the
    one that was hit, then all the calls of [cleanup], and the shutdown hook
    has run twice. *)
Theorem cleanup_interrupted_runs_again
    (env : world) (self : params) (n cycles : Z) (fuel : nat) (c : call) :
  c = Shutdown \/ c = Strip_clear \/ c = Strip_release ->
  (forall tr k, k <> c -> exists v, env tr k = Returns v) ->
  (forall tr, ~ In c tr -> env tr c = Raises KeyboardInterrupt) ->
  (forall tr, In c tr -> exists v, env tr c = Returns v) ->
  num_steps_per_cycle self = VInt n ->
  num_cycles self = VInt cycles ->
  cycles <> -1 ->
  Z.max 1 cycles <= Z.of_nat fuel ->
  exists pre,
    run env self fuel [] = (Ok true, pre ++ cleanup_upto c ++ cleanup_calls)
    /\ Forall loop_call pre
    /\ updates pre = cycles_updates n (Z.to_nat (Z.max 1 cycles)) 0
    /\ cleanups (pre ++ cleanup_upto c ++ cleanup_calls) = 2%nat.
Proof.
  intros Hc Hother Hfirst Hlater Hsteps Hcycles Hm1 Hfuel.
  assert (Hloop : forall tr k, loop_call k -> exists v, env tr k = Returns v).
  { intros tr k Hk. apply Hother. intros ->.
    destruct Hc as [-> | [-> | ->]]; exact Hk. }
  destruct (front_blocks env self Hloop n Hsteps cycles fuel Hcycles Hm1 Hfuel)
    as (sts & Hfront & Hu & _).
  set (pre := [Init; Strip_show] ++ blocks (pause_sec self) sts) in *.
  assert (Hpre : Forall loop_call pre).
  { subst pre. apply Forall_app. split; [repeat constructor | apply loop_call_blocks]. }
  assert (Hupd : updates pre = cycles_updates n (Z.to_nat (Z.max 1 cycles)) 0).
  { subst pre. rewrite updates_app, updates_blocks, Hu. reflexivity. }
  clearbody pre.
  assert (Hnot : ~ In c pre).
  { intros Hin. rewrite Forall_forall in Hpre. specialize (Hpre c Hin).
    destruct Hc as [-> | [-> | ->]]; exact Hpre. }
  assert (Hafter : forall tr, In c tr ->
                   forall ext k, exists v, env (tr ++ ext) k = Returns v).
  { intros tr Hin ext k.
    assert (Hin' : In c (tr ++ ext)) by (apply in_or_app; now left).
    destruct Hc as [-> | [-> | ->]]; destruct k;
      try (apply Hother; discriminate); now apply Hlater. }
  exists pre. rewrite run_eq, Hfront.
  split; [|split; [exact Hpre|split]].
  - unfold cleanup at 1, strip_clearStrip, strip_cleanup, mbind at 1 2 3 4 5 6, do.
    destruct Hc as [-> | [-> | ->]].
    + rewrite (Hfirst pre Hnot).
      unfold mbind.
      rewrite (cleanup_after env (pre ++ [Shutdown]))
        by (apply Hafter; apply in_or_app; right; now left).
      cbn [cleanup_upto ret]. now rewrite <- app_assoc.
    + destruct (Hother pre Shutdown ltac:(discriminate)) as [v1 ->].
      rewrite (Hfirst (pre ++ [Shutdown])).
      2:{ intros Hin. apply in_app_or in Hin. destruct Hin as [Hin|Hin];
          [exact (Hnot Hin) | cbn in Hin; intuition discriminate]. }
      unfold mbind.
      rewrite (cleanup_after env ((pre ++ [Shutdown]) ++ [Strip_clear]))
        by (apply Hafter; apply in_or_app; right; now left).
      cbn [cleanup_upto ret]. now rewrite <- !app_assoc.
    + destruct (Hother pre Shutdown ltac:(discriminate)) as [v1 ->].
      destruct (Hother (pre ++ [Shutdown]) Strip_clear ltac:(discriminate)) as [v2 ->].
      destruct (Hother ((pre ++ [Shutdown]) ++ [Strip_clear]) Strip_show
                  ltac:(discriminate)) as [v3 ->].
      change (ret tt (((pre ++ [Shutdown]) ++ [Strip_clear]) ++ [Strip_show]))
        with (Ok tt, ((pre ++ [Shutdown]) ++ [Strip_clear]) ++ [Strip_show]).
      cbv iota beta.
      rewrite (Hfirst (((pre ++ [Shutdown]) ++ [Strip_clear]) ++ [Strip_show])).
      2:{ intros Hin.
          repeat (apply in_app_or in Hin; destruct Hin as [Hin|Hin]);
            try (exact (Hnot Hin)); cbn in Hin; intuition discriminate. }
      unfold mbind.
      rewrite (cleanup_after env
                 ((((pre ++ [Shutdown]) ++ [Strip_clear]) ++ [Strip_show]) ++ [Strip_release]))
        by (apply Hafter; apply in_or_app; right; now left).
      cbn [cleanup_upto ret cleanup_calls]. now rewrite <- !app_assoc.
  - exact Hupd.
  - rewrite !cleanups_app, cleanups_cleanup_upto.
    destruct (loop_calls_no_cleanup pre Hpre) as [-> _]. reflexivity.
Qed.

Lemma release_interrupted_other (tr : trace) (k : call) :
  k <> Strip_release -> exists v, release_interrupted tr k = Returns v.
Proof. intros Hk. destruct k; cbn; eauto. contradiction. Qed.

Lemma release_interrupted_first (tr : trace) :
  ~ In Strip_release tr -> release_interrupted tr Strip_release = Raises KeyboardInterrupt.
Proof.
  intros Hnot. cbn.
  destruct (existsb _ tr) eqn:E; [|reflexivity].
  apply existsb_exists in E. destruct E as (k & Hin & Hk).
  destruct k; try discriminate. contradiction.
Qed.

Lemma release_interrupted_later (tr : trace) :
  In Strip_release tr -> exists v, release_interrupted tr Strip_release = Returns v.
Proof.
  intros Hin. cbn.
  destruct (existsb _ tr) eqn:E; [eauto|].
  assert (Ht : existsb (fun k => match k with Strip_release => true | _ => false end) tr
               = true)
    by (apply existsb_exists; exists Strip_release; auto).
  congruence.
Qed.

Lemma cleanup_interrupted_runs_again_witness :
  (Strip_release = Shutdown \/ Strip_release = Strip_clear \/ Strip_release = Strip_release)
  /\ (forall tr k, k <> Strip_release -> exists v, release_interrupted tr k = Returns v)
  /\ (forall tr, ~ In Strip_release tr ->
                 release_interrupted tr Strip_release = Raises KeyboardInterrupt)
  /\ (forall tr, In Strip_release tr ->
                 exists v, release_interrupted tr Strip_release = Returns v)
  /\ num_steps_per_cycle five_by_three = VInt 5
  /\ num_cycles five_by_three = VInt 3
  /\ 3 <> -1
  /\ Z.max 1 3 <= Z.of_nat 3
  /\ exists pre,
      run release_interrupted five_by_three 3 []
      = (Ok true, pre ++ cleanup_upto Strip_release ++ cleanup_calls)
      /\ Forall loop_call pre
      /\ updates pre = cycles_updates 5 (Z.to_nat (Z.max 1 3)) 0
      /\ cleanups (pre ++ cleanup_upto Strip_release ++ cleanup_calls) = 2%nat.
Proof.
  split; [right; right; reflexivity|].
  split; [exact release_interrupted_other|].
  split; [exact release_interrupted_first|].
  split; [exact release_interrupted_later|].
  split; [reflexivity|]. split; [reflexivity|]. split; [lia|]. split; [simpl; lia|].
  apply (cleanup_interrupted_runs_again release_interrupted five_by_three 5 3 3
           Strip_release).
  - right. right. reflexivity.
  - exact release_interrupted_other.
  - exact release_interrupted_first.
  - exact release_interrupted_later.
  - reflexivity.
  - reflexivity.
  - lia.
  - simpl. lia.
Defined.

End RunShape.

(** ** Sequences of settings *)

Section Settings.
Import Py ColorCycle.
Local Open Scope string_scope.
Local Open Scope Z_scope.

Variable verify : verifyparameters.

Lemma set_parameter_keeps_order (p p' : params) (nm : string) (v : value) :
  set_parameter verify p nm v = Ok p' -> order p' = order p.
Proof.
  unfold set_parameter.
  destruct (String.eqb nm "pause_sec").
  { destruct (not_negative_numeric verify v nm); [|discriminate]. now intros [= <-]. }
  destruct (String.eqb nm "num_steps_per_cycle").
  { destruct (positive_integer verify v nm); [|discriminate]. now intros [= <-]. }
  destruct (String.eqb nm "num_cycles"); [|discriminate].
  destruct (positive_integer verify v nm); [|discriminate]. now intros [= <-].
Qed.

Lemma configure_step (name : string) (p : params) (nm : string) (v : value) :
  name = "pause_sec" \/ name = "num_steps_per_cycle" \/ name = "num_cycles" ->
  field name
    (match set_parameter verify p nm v with Ok p' => p' | Raise _ => p end)
  = if String.eqb nm name && accepts verify nm v then v else field name p.
Proof.
  intros Hname. unfold set_parameter, accepts.
  destruct (String.eqb_spec nm "pause_sec") as [->|N1].
  { destruct (not_negative_numeric verify v "pause_sec");
      destruct Hname as [-> | [-> | ->]]; reflexivity. }
  destruct (String.eqb_spec nm "num_steps_per_cycle") as [->|N2].
  { destruct (positive_integer verify v "num_steps_per_cycle");
      destruct Hname as [-> | [-> | ->]]; reflexivity. }
  destruct (String.eqb_spec nm "num_cycles") as [->|N3].
  { destruct (positive_integer verify v "num_cycles");
      destruct Hname as [-> | [-> | ->]]; reflexivity. }
  cbn [bind]. now rewrite andb_false_r.
Qed.

(** X16: after any sequence of calls of [set_parameter], whatever the
    validators are, each of the three parameters holds the last value that
    was given for its name and that its validator took, or what it held
    before when there was none; calls for other names or with values that
    are not taken change nothing, and [order] stays as it was. *)
Theorem configure_last_write_wins
    (self : params) (settings : list (string * value)) (name : string) :
  name = "pause_sec" \/ name = "num_steps_per_cycle" \/ name = "num_cycles" ->
  field name (configure verify self settings)
  = last_accepted verify name settings (field name self)
  /\ order (configure verify self settings) = order self.
Proof.
  intros Hname. unfold configure, last_accepted.
  revert self. induction settings as [|[nm v] settings IH]; intros self.
  - split; reflexivity.
  - cbn [fold_left].
    destruct (IH (match set_parameter verify self nm v with
                  | Ok p' => p' | Raise _ => self end)) as [Hf Ho].
    split.
    + rewrite Hf. now rewrite configure_step.
    + rewrite Ho. destruct (set_parameter verify self nm v) eqn:E; [|reflexivity].
      now apply set_parameter_keeps_order in E.
Qed.

End Settings.

Section SettingsWitness.
Import Py ColorCycle.
Local Open Scope string_scope.

Lemma configure_last_write_wins_witness :
  ("pause_sec" = "pause_sec" \/ "pause_sec" = "num_steps_per_cycle"
   \/ "pause_sec" = "num_cycles")
  /\ field "pause_sec"
       (configure spec_verify init_parameters
          [("pause_sec", VInt 2); ("colour", VInt 1); ("pause_sec", VInt (-1))])
     = last_accepted spec_verify "pause_sec"
         [("pause_sec", VInt 2); ("colour", VInt 1); ("pause_sec", VInt (-1))]
         (field "pause_sec" init_parameters)
  /\ order (configure spec_verify init_parameters
              [("pause_sec", VInt 2); ("colour", VInt 1); ("pause_sec", VInt (-1))])
     = order init_parameters.
Proof.
  split; [left; reflexivity|].
  apply (configure_last_write_wins spec_verify init_parameters
           [("pause_sec", VInt 2); ("colour", VInt 1); ("pause_sec", VInt (-1))]
           "pause_sec").
  left. reflexivity.
Defined.

End SettingsWitness.
